(** * sat-frontend: job-list reconciliation, SSE monitor, pager and HTTP client

    A shallow embedding of the state-handling code of the front end:
    - [components/InfiniteJobList.tsx]: [toKey], [matchesFilter], the
      [setRealtimeJobs] updater run on every SSE message, the clean-up
      effect run on a filter change, and the [displayJobs] memo;
    - [services/jobService.ts]: the [JobMonitor] class;
    - [hooks/useInfiniteScroll.ts]: [loadMore], [reset], [addItem];
    - [services/apiClient.ts]: [ApiClient.request] and [ApiClientError].

    Values that come out of [JSON.parse] are modelled at the types the code
    itself allows for: an identifier is [string | number] (the parameter type
    of [toKey]) and may be missing, every other field of a job is a string
    that may be missing (the code tests them for truthiness before use). *)

From Stdlib Require Import String Ascii List ZArith NArith Bool Lia.
From Stdlib Require Import Permutation Sorted DecimalString.
Import ListNotations.

Local Open Scope string_scope.
Local Open Scope bool_scope.

(** ** JavaScript values and operators used by the code *)

Module Js.

(** A value read from a parsed JSON object where the code accepts
  [string | number]. [JUndefined] stands for a property that is absent;
  [JNumber n] for an integer-valued number in the safe range, which
  [String] prints as its decimal numeral. *)
Inductive JsVal : Type :=
  | JUndefined
  | JNull
  | JString (s : string)
  | JNumber (n : Z).

(** [String(v)]. *)
Definition ToString (v : JsVal) : string :=
  match v with
  | JUndefined => "undefined"
  | JNull => "null"
  | JString s => s
  | JNumber n => NilZero.string_of_int (Z.to_int n)
  end.

(** Truthiness of a [string | number | null | undefined]. *)
Definition truthy (v : JsVal) : bool :=
  match v with
  | JUndefined | JNull => false
  | JString s => negb (s =? "")
  | JNumber n => negb (n =? 0)%Z
  end.

(** An optional string property: [None] is [undefined]. *)
Definition str_truthy (o : option string) : bool :=
  match o with
  | Some s => negb (s =? "")
  | None => false
  end.

(** A property that is absent or the empty string. *)
Definition absent_or_empty (o : option string) : Prop := o = None \/ o = Some "".

(** [a === b] on optional strings. *)
Definition strict_eq (a b : option string) : bool :=
  match a, b with
  | Some x, Some y => x =? y
  | None, None => true
  | _, _ => false
  end.

(** [a < b], [a > b] and [a >= b] on strings compare code units
  lexicographically; a string here is a sequence of 8-bit units, which is
  what the timestamps, dates and identifiers of the back end are. *)
Definition lt (a b : string) : bool := String.ltb a b.
Definition gt (a b : string) : bool := String.ltb b a.
Definition ge (a b : string) : bool := negb (String.ltb a b).

(** The same operators when an operand may be [undefined]: a comparison
  of a string with [undefined] is false. *)
Definition lt_opt (a : string) (b : option string) : bool :=
  match b with Some y => lt a y | None => false end.
Definition gt_opt (a : string) (b : option string) : bool :=
  match b with Some y => gt a y | None => false end.
Definition ge_opt (a b : option string) : bool :=
  match a, b with Some x, Some y => ge x y | _, _ => false end.

(** [s.split('T')[0]]: the part of [s] before its first ['T']. *)
Fixpoint split_T_0 (s : string) : string :=
  match s with
  | EmptyString => EmptyString
  | String c r => if Ascii.eqb c "T"%char then EmptyString else String c (split_T_0 r)
  end.

(** Spread of one property, [{...base, ...live}]: the later object wins
  when it has the property. *)
Definition spread_val (base live : JsVal) : JsVal :=
  match live with JUndefined => base | v => v end.
Definition spread_str (base live : option string) : option string :=
  match live with Some s => Some s | None => base end.

(** Lexicographic order on strings, stated on its own. *)
Inductive lex_le : string -> string -> Prop :=
  | lex_le_empty s : lex_le EmptyString s
  | lex_le_head c1 c2 s1 s2 :
  (N_of_ascii c1 < N_of_ascii c2)%N -> lex_le (String c1 s1) (String c2 s2)
  | lex_le_tail c s1 s2 : lex_le s1 s2 -> lex_le (String c s1) (String c s2).

Definition lex_lt (a b : string) : Prop := lex_le a b /\ a <> b.

End Js.

(** ** [Array.prototype.sort] with a comparator *)

Module JsArray.

Section Sort.
Context {A : Type}.

(** The comparator returns a number; [None] is [NaN]. *)
Variable comparefn : A -> A -> option Z.

(** [SortCompare]: a [NaN] result counts as [+0]. *)
Definition SortCompare (x y : A) : Z :=
  match comparefn x y with Some v => v | None => 0%Z end.

Fixpoint insert (x : A) (l : list A) : list A :=
  match l with
  | [] => [x]
  | y :: r => if (SortCompare x y <=? 0)%Z then x :: y :: r else y :: insert x r
  end.

(** A stable sort: elements that compare equal keep their order. With a
    consistent comparator every stable sort returns this list; with an
    inconsistent one (a [NaN] among the results) the language leaves the
    order to the engine, and this is one admissible outcome. *)
Definition sort (l : list A) : list A := fold_right insert [] l.

End Sort.

End JsArray.

(** ** An insertion-ordered [Map<string, V>] *)

Module JsMap.

Section Ops.
Context {V : Type}.

(** Entries in insertion order, as [forEach] and [values()] visit them. *)
Definition t : Type := list (string * V).

Definition empty : t := [].

Fixpoint get (k : string) (m : t) : option V :=
  match m with
  | [] => None
  | (k', v) :: r => if k' =? k then Some v else get k r
  end.

Definition has (k : string) (m : t) : bool :=
  match get k m with Some _ => true | None => false end.

(** [m.set(k, v)]: an existing key keeps its place, a new key goes last. *)
Fixpoint set (k : string) (v : V) (m : t) : t :=
  match m with
  | [] => [(k, v)]
  | (k', v') :: r => if k' =? k then (k', v) :: r else (k', v') :: set k v r
  end.

Definition keys (m : t) : list string := map fst m.
Definition values (m : t) : list V := map snd m.

(** The representation invariant of a [Map]: one entry per key. *)
Definition ok (m : t) : Prop := NoDup (keys m).
End Ops.

Arguments t : clear implicits.

End JsMap.

(** ** Data transfer objects ([types/index.ts]) *)

Module JobDto.
Import Js.

Record t : Type := mk {
  id : JsVal;
  taskId : option string;
  inputArtifactId : JsVal;
  baseName : option string;
  dirName : option string;
  tool : option string;
  options : option string;
  createdAt : option string;
  updatedAt : option string;
  alignArtifactId : option string;
  statArtifactId : option string;
  jobStatus : option string;
  message : option string
}.

(** [{ ...job, ...live }]. *)
Definition spread (job live : t) : t :=
  {| id := spread_val (id job) (id live);
     taskId := spread_str (taskId job) (taskId live);
     inputArtifactId := spread_val (inputArtifactId job) (inputArtifactId live);
     baseName := spread_str (baseName job) (baseName live);
     dirName := spread_str (dirName job) (dirName live);
     tool := spread_str (tool job) (tool live);
     options := spread_str (options job) (options live);
     createdAt := spread_str (createdAt job) (createdAt live);
     updatedAt := spread_str (updatedAt job) (updatedAt live);
     alignArtifactId := spread_str (alignArtifactId job) (alignArtifactId live);
     statArtifactId := spread_str (statArtifactId job) (statArtifactId live);
     jobStatus := spread_str (jobStatus job) (jobStatus live);
     message := spread_str (message job) (message live) |}.

End JobDto.

Module JobFilter.
Record t : Type := mk {
  inputArtifactId : option string;
  startDate : option string;
  endDate : option string;
  status : option string;
  tool : option string
}.

(** [{}] *)
Definition none : t := mk None None None None None.
End JobFilter.

Module DateRange.
Record t : Type := mk {
  startDate : option string;
  endDate : option string
}.

(** [{}] *)
Definition none : t := mk None None.
End DateRange.

(** ** [components/InfiniteJobList.tsx] *)

Module InfiniteJobList.
Import Js.

Definition toKey (id : JsVal) : string := ToString id.

(** The local [jobDate] of [matchesFilter]. *)
Definition jobDate (job : JobDto.t) : string :=
  match JobDto.createdAt job with
  | Some s => if str_truthy (Some s) then split_T_0 s else ""
  | None => ""
  end.

Definition matchesFilter (job : JobDto.t) (filters : JobFilter.t)
    (dateRange : DateRange.t) : bool :=
  if str_truthy (JobFilter.inputArtifactId filters)
     && negb (strict_eq (Some (ToString (JobDto.inputArtifactId job)))
                        (JobFilter.inputArtifactId filters))
  then false
  else if str_truthy (JobFilter.tool filters)
          && negb (strict_eq (JobDto.tool job) (JobFilter.tool filters))
  then false
  else if str_truthy (JobFilter.status filters)
          && negb (strict_eq (JobDto.jobStatus job) (JobFilter.status filters))
  then false
  else if str_truthy (DateRange.startDate dateRange)
          || str_truthy (DateRange.endDate dateRange)
  then
    if str_truthy (DateRange.startDate dateRange)
       && lt_opt (jobDate job) (DateRange.startDate dateRange)
    then false
    else if str_truthy (DateRange.endDate dateRange)
            && gt_opt (jobDate job) (DateRange.endDate dateRange)
    then false
    else true
  else true.

(** A filter component is set when it holds a non-empty string. *)
Definition is_set (o : option string) (s : string) : Prop :=
  o = Some s /\ s <> "".

(** The filter predicate as the specification words it: a conjunction of
    exact matches and an inclusive, lexicographic date range. *)
Definition filter_conjunction (job : JobDto.t) (filters : JobFilter.t)
    (dateRange : DateRange.t) : Prop :=
  (forall a, is_set (JobFilter.inputArtifactId filters) a ->
             ToString (JobDto.inputArtifactId job) = a) /\
  (forall t, is_set (JobFilter.tool filters) t -> JobDto.tool job = Some t) /\
  (forall s, is_set (JobFilter.status filters) s -> JobDto.jobStatus job = Some s) /\
  (forall d, is_set (DateRange.startDate dateRange) d -> lex_le d (jobDate job)) /\
  (forall d, is_set (DateRange.endDate dateRange) d -> lex_le (jobDate job) d).

(** The test of the [if] in the [setRealtimeJobs] updater of the SSE
    [onMessage] callback (the value the updater logs beforehand is not
    used). *)
Definition shouldStore (existing : option JobDto.t) (updated : JobDto.t) : bool :=
  match existing with
  | None => true
  | Some e =>
      negb (str_truthy (JobDto.updatedAt updated))
      || negb (str_truthy (JobDto.updatedAt e))
      || ge_opt (JobDto.updatedAt updated) (JobDto.updatedAt e)
  end.

(** The updater: [prev] is copied, and the copy returned with or without
    the update. *)
Definition onSseUpdate (prev : JsMap.t JobDto.t) (updatedJob : JobDto.t)
    : JsMap.t JobDto.t :=
  let k := toKey (JobDto.id updatedJob) in
  let next := prev in
  let existing := JsMap.get k next in
  let updated := updatedJob in
  if shouldStore existing updated then JsMap.set k updated next else next.

(** The acceptance condition as the specification words it. *)
Definition not_stale (prev : JsMap.t JobDto.t) (u : JobDto.t) : Prop :=
  JsMap.get (toKey (JobDto.id u)) prev = None
  \/ absent_or_empty (JobDto.updatedAt u)
  \/ exists e, JsMap.get (toKey (JobDto.id u)) prev = Some e
       /\ (absent_or_empty (JobDto.updatedAt e)
           \/ exists tu te, JobDto.updatedAt u = Some tu
                /\ JobDto.updatedAt e = Some te /\ lex_le te tu).

(** The effect run when [filters] or [dateRange] change: entries that no
    longer match are dropped from the live map. *)
Definition onFilterChange (prev : JsMap.t JobDto.t) (filters : JobFilter.t)
    (dateRange : DateRange.t) : JsMap.t JobDto.t :=
  filter (fun '(_, job) => matchesFilter job filters dateRange) prev.

(** Every entry of the live map sits under the key of its own identifier. *)
Definition keyed_by_id (m : JsMap.t JobDto.t) : Prop :=
  forall k job, In (k, job) m -> toKey (JobDto.id job) = k.

(** The states the live map goes through: empty at mount, then one SSE
    update or one filter change at a time. *)
Inductive live_reachable : JsMap.t JobDto.t -> Prop :=
| live_initial : live_reachable JsMap.empty
| live_update prev updatedJob :
    live_reachable prev -> live_reachable (onSseUpdate prev updatedJob)
| live_filter prev filters dateRange :
    live_reachable prev -> live_reachable (onFilterChange prev filters dateRange).

(** *** [displayJobs] *)

Section DisplayJobs.

(** [new Date(s).getTime()] for a string [s]; [None] is [NaN], the time of
    an invalid date. *)
Variable Date_getTime : string -> option Z.

(** [new Date(job.createdAt || 0).getTime()] *)
Definition createdTime (job : JobDto.t) : option Z :=
  match JobDto.createdAt job with
  | Some s => if str_truthy (Some s) then Date_getTime s else Some 0%Z
  | None => Some 0%Z
  end.

(** [(a, b) => dateB - dateA]. Times are integers of magnitude at most
    8.64e15, so the sign of the floating-point difference is the sign of
    the exact one. *)
Definition byCreatedDesc (a b : JobDto.t) : option Z :=
  match createdTime a, createdTime b with
  | Some dateA, Some dateB => Some (dateB - dateA)%Z
  | _, _ => None
  end.

Definition mergeLive (realtimeJobs : JsMap.t JobDto.t) (job : JobDto.t) : JobDto.t :=
  match JsMap.get (toKey (JobDto.id job)) realtimeJobs with
  | Some live => JobDto.spread job live
  | None => job
  end.

Definition existingJobs (jobs : list JobDto.t) (realtimeJobs : JsMap.t JobDto.t)
    : list JobDto.t :=
  map (mergeLive realtimeJobs) jobs.

Definition existsInJobs (jobs : list JobDto.t) (id : string) : bool :=
  existsb (fun job => toKey (JobDto.id job) =? id) jobs.

(** The [forEach] over the live map pushes, in map order, the entries that
    are not in [jobs] and pass the filter. *)
Definition newJobs (jobs : list JobDto.t) (realtimeJobs : JsMap.t JobDto.t)
    (filters : JobFilter.t) (dateRange : DateRange.t) : list JobDto.t :=
  map snd
    (filter (fun '(id, realtimeJob) =>
               negb (existsInJobs jobs id)
               && matchesFilter realtimeJob filters dateRange)
            realtimeJobs).

(** One round of the de-duplication loop over [allJobs]. *)
Definition addUnique (uniqueJobs : JsMap.t JobDto.t) (job : JobDto.t)
    : JsMap.t JobDto.t :=
  let key := toKey (JobDto.id job) in
  match JsMap.get key uniqueJobs with
  | None => JsMap.set key job uniqueJobs
  | Some existing =>
      if str_truthy (JobDto.updatedAt job)
         && str_truthy (JobDto.updatedAt existing)
         && ge_opt (JobDto.updatedAt job) (JobDto.updatedAt existing)
      then JsMap.set key job uniqueJobs
      else uniqueJobs
  end.

Definition uniqueJobs (allJobs : list JobDto.t) : JsMap.t JobDto.t :=
  fold_left addUnique allJobs JsMap.empty.

Definition displayJobs (jobs : list JobDto.t) (realtimeJobs : JsMap.t JobDto.t)
    (filters : JobFilter.t) (dateRange : DateRange.t) : list JobDto.t :=
  let allJobs := (newJobs jobs realtimeJobs filters dateRange
                  ++ existingJobs jobs realtimeJobs)%list in
  let finalJobs := JsMap.values (uniqueJobs allJobs) in
  JsArray.sort byCreatedDesc finalJobs.

(** *** The reference merge of the specification *)

Definition jobKey (job : JobDto.t) : string := toKey (JobDto.id job).

(** What the loop over [allJobs] keeps true of its map, given the jobs
    [seen] so far. *)
Definition unique_inv (m : JsMap.t JobDto.t) (seen : list JobDto.t) : Prop :=
  JsMap.ok m
  /\ (forall k v, In (k, v) m -> jobKey v = k /\ In v seen)
  /\ (forall a, In a seen -> In (jobKey a) (JsMap.keys m)).

(** One property overlaid: the live value wins when the live object has
    the property, the base value stays otherwise. *)
Definition wins_val (base live r : JsVal) : Prop :=
  (live <> JUndefined -> r = live) /\ (live = JUndefined -> r = base).

Definition wins_str (base live r : option string) : Prop :=
  (live <> None -> r = live) /\ (live = None -> r = base).

Definition live_fields_win (job live m : JobDto.t) : Prop :=
  wins_val (JobDto.id job) (JobDto.id live) (JobDto.id m)
  /\ wins_str (JobDto.taskId job) (JobDto.taskId live) (JobDto.taskId m)
  /\ wins_val (JobDto.inputArtifactId job) (JobDto.inputArtifactId live)
              (JobDto.inputArtifactId m)
  /\ wins_str (JobDto.baseName job) (JobDto.baseName live) (JobDto.baseName m)
  /\ wins_str (JobDto.dirName job) (JobDto.dirName live) (JobDto.dirName m)
  /\ wins_str (JobDto.tool job) (JobDto.tool live) (JobDto.tool m)
  /\ wins_str (JobDto.options job) (JobDto.options live) (JobDto.options m)
  /\ wins_str (JobDto.createdAt job) (JobDto.createdAt live) (JobDto.createdAt m)
  /\ wins_str (JobDto.updatedAt job) (JobDto.updatedAt live) (JobDto.updatedAt m)
  /\ wins_str (JobDto.alignArtifactId job) (JobDto.alignArtifactId live)
              (JobDto.alignArtifactId m)
  /\ wins_str (JobDto.statArtifactId job) (JobDto.statArtifactId live)
              (JobDto.statArtifactId m)
  /\ wins_str (JobDto.jobStatus job) (JobDto.jobStatus live) (JobDto.jobStatus m)
  /\ wins_str (JobDto.message job) (JobDto.message live) (JobDto.message m).

(** A base job with the live entry of its key, if any, overlaid. *)
Definition overlaid (L : JsMap.t JobDto.t) (job m : JobDto.t) : Prop :=
  match JsMap.get (jobKey job) L with
  | Some live => live_fields_win job live m
  | None => m = job
  end.

(** The key is present only in the live map. *)
Definition live_only (B : list JobDto.t) (L : JsMap.t JobDto.t) (k : string)
    (l : JobDto.t) : Prop :=
  JsMap.get k L = Some l /\ ~ In k (map jobKey B).

(** [a] is displayed before [b]: both creation times are defined and [a]'s
    is not the earlier one. *)
Definition newest_first (a b : JobDto.t) : Prop :=
  exists ta tb, createdTime a = Some ta /\ createdTime b = Some tb /\ (tb <= ta)%Z.

(** [out] is a reference merge of the base list [B] and the live map [L]:
    the overlaid base jobs and the live-only jobs that pass the filter,
    one per key, newest first. *)
Record reference_merge (B : list JobDto.t) (L : JsMap.t JobDto.t)
    (filters : JobFilter.t) (dateRange : DateRange.t) (out : list JobDto.t)
    : Prop := {
  rm_base : forall j, In j B ->
    exists j' m, In j' B /\ jobKey j' = jobKey j /\ In m out /\ overlaid L j' m;
  rm_base_single : forall j, In j B ->
    (forall j', In j' B -> jobKey j' = jobKey j -> j' = j) ->
    exists m, In m out /\ overlaid L j m;
  rm_live_only : forall k l, live_only B L k l ->
    (In l out <-> matchesFilter l filters dateRange = true);
  rm_only : forall m, In m out ->
    (exists j, In j B /\ overlaid L j m)
    \/ (exists k, live_only B L k m /\ matchesFilter m filters dateRange = true);
  rm_unique : NoDup (map jobKey out);
  rm_sorted : StronglySorted newest_first out
}.


End DisplayJobs.

End InfiniteJobList.

(** ** [services/jobService.ts]: the [JobMonitor] class *)

Module JobMonitor.
Import Js.

Inductive ReadyState : Type := CONNECTING | OPEN | CLOSED.

(** The fields of a monitor that change after construction. The event
    source is kept by its ready state; a timer by the identifier
    [setTimeout] returned, a positive number. *)
Record t : Type := mk {
  eventSource : option ReadyState;
  reconnectTimer : option nat;
  reconnectAttempts : nat;
  isConnected : bool
}.

Definition maxReconnectAttempts : nat := 3.

(** What a monitor does to the world outside it, in order. *)
Inductive Effect : Type :=
| NewEventSource
| CloseEventSource
| SetTimeout (id delay : nat)
| ClearTimeout (id : nat)
| CallOnOpen
| CallOnError
| CallOnMessage (job : JobDto.t)
| LogMaxAttempts.

(** The monitor with the browser's timer table and the effects so far. *)
Record World : Type := mkWorld {
  monitor : t;
  pendingTimers : list nat;
  nextTimerId : nat;
  trace : list Effect
}.

(** What [JSON.parse] returns: [null], a primitive or array (reading [id]
    gives [undefined]), or an object read at the fields of a job. *)
Inductive Parsed : Type :=
| PNull
| POther
| PObject (job : JobDto.t).

Inductive Thrown : Type :=
| SyntaxError
| TypeError
| ThrownByCallback.

(** A completion: normal, or abrupt by a throw. *)
Inductive Completion (A : Type) : Type :=
| Normal (a : A)
| Throw (e : Thrown).
Arguments Normal {A} a.
Arguments Throw {A} e.

Definition bind {A B : Type} (c : Completion A) (k : A -> Completion B)
    : Completion B :=
  match c with Normal a => k a | Throw e => Throw e end.

Notation "x <- c ;; k" := (bind c (fun x => k))
  (at level 61, c at next level, right associativity).

(** The condition under which a message is handed to the callback. *)
Definition is_job_update (job : JobDto.t) : Prop :=
  truthy (JobDto.id job) = true
  /\ (absent_or_empty (JobDto.taskId job) \/ JobDto.taskId job <> Some "KEEP_ALIVE").

Section Monitor.

(** [reconnectDelay], read from the environment by the constructor. *)
Variable reconnectDelay : nat.

(** [JSON.parse]; [None] when it throws a [SyntaxError]. *)
Variable JSON_parse : string -> option Parsed.

(** Whether the [onMessage] callback given to the constructor throws on a
    job. *)
Variable onMessage_throws : JobDto.t -> bool.

Definition emit (e : Effect) (w : World) : World :=
  mkWorld (monitor w) (pendingTimers w) (nextTimerId w) (trace w ++ [e]).

Definition with_monitor (m : t) (w : World) : World :=
  mkWorld m (pendingTimers w) (nextTimerId w) (trace w).

Definition scheduleReconnect (w : World) : World :=
  let m := monitor w in
  if (maxReconnectAttempts <=? reconnectAttempts m)%nat then emit LogMaxAttempts w
  else
    let id := nextTimerId w in
    let m' := mk (eventSource m) (Some id) (S (reconnectAttempts m)) (isConnected m) in
    mkWorld m' (pendingTimers w ++ [id]) (S id)
            (trace w ++ [SetTimeout id reconnectDelay]).

(** [connect]; [ctorThrows] tells whether [new EventSource(url)] throws. *)
Definition connect (ctorThrows : bool) (w : World) : World :=
  let m := monitor w in
  match eventSource m with
  | Some OPEN => w
  | _ =>
      if ctorThrows then
        scheduleReconnect
          (with_monitor (mk (eventSource m) (reconnectTimer m)
                            (reconnectAttempts m) false) w)
      else
        emit NewEventSource
          (with_monitor (mk (Some CONNECTING) (reconnectTimer m)
                            (reconnectAttempts m) (isConnected m)) w)
  end.

Definition clearReconnectTimer (w : World) : World :=
  let m := monitor w in
  match reconnectTimer m with
  | Some id =>
      mkWorld (mk (eventSource m) None (reconnectAttempts m) (isConnected m))
              (filter (fun i => negb (i =? id)%nat) (pendingTimers w))
              (nextTimerId w)
              (trace w ++ [ClearTimeout id])
  | None => w
  end.

Definition closeEventSource (w : World) : World :=
  let m := monitor w in
  match eventSource m with
  | Some _ =>
      emit CloseEventSource
        (with_monitor (mk None (reconnectTimer m) (reconnectAttempts m)
                          (isConnected m)) w)
  | None => w
  end.

Definition disconnect (w : World) : World :=
  let w1 := closeEventSource (clearReconnectTimer w) in
  let m := monitor w1 in
  with_monitor (mk (eventSource m) (reconnectTimer m) 0 (isConnected m)) w1.

Definition reconnect (ctorThrows : bool) (w : World) : World :=
  connect ctorThrows (disconnect w).

Definition getConnectionStatus (w : World) : bool := isConnected (monitor w).

(** The [onopen] handler; the browser has set the source's state to
    [OPEN]. *)
Definition onopen (w : World) : World :=
  let m := monitor w in
  emit CallOnOpen (with_monitor (mk (Some OPEN) (reconnectTimer m) 0 true) w).

(** The body of the [try] block of the [onmessage] handler: the jobs the
    callback was invoked with, and how the block completed. *)
Definition onmessage_try (data : string) : list JobDto.t * Completion unit :=
  match JSON_parse data with
  | None => ([], Throw SyntaxError)
  | Some PNull => ([], Throw TypeError)
  | Some POther => ([], Normal tt)
  | Some (PObject job) =>
      if truthy (JobDto.id job)
         && (negb (str_truthy (JobDto.taskId job))
             || negb (strict_eq (JobDto.taskId job) (Some "KEEP_ALIVE")))
      then ([job], if onMessage_throws job then Throw ThrownByCallback else Normal tt)
      else ([], Normal tt)
  end.

(** The [onmessage] handler: the [catch] clause logs whatever was thrown
    and completes normally. *)
Definition onmessage (data : string) : list JobDto.t * Completion unit :=
  let '(calls, c) := onmessage_try data in
  match c with
  | Normal tt => (calls, Normal tt)
  | Throw _ => (calls, Normal tt)
  end.

(** The [onerror] handler. *)
Definition onerror (w : World) : World :=
  let m := monitor w in
  let w1 := with_monitor (mk (eventSource m) (reconnectTimer m)
                             (reconnectAttempts m) false) w in
  let w2 := emit CallOnError w1 in
  scheduleReconnect (disconnect w2).

(** The constructor: fields at their initial values, then [connect]. *)
Definition new (ctorThrows : bool) : World :=
  connect ctorThrows (mkWorld (mk None None 0 false) [] 1 []).

(** Events delivered by the browser, and calls made by the owner. The
    handlers of a source run only while the monitor holds it, a timer
    only while it is pending. *)
Inductive Event : Type :=
| EvOpen
| EvMessage (data : string)
| EvError
| EvTimer (ctorThrows : bool)
| CallReconnect (ctorThrows : bool)
| CallDisconnect.

Definition step (w : World) (ev : Event) : World :=
  match ev with
  | EvOpen =>
      match eventSource (monitor w) with Some _ => onopen w | None => w end
  | EvMessage data =>
      match eventSource (monitor w) with
      | Some _ =>
          mkWorld (monitor w) (pendingTimers w) (nextTimerId w)
                  (trace w ++ map CallOnMessage (fst (onmessage data)))
      | None => w
      end
  | EvError =>
      match eventSource (monitor w) with Some _ => onerror w | None => w end
  | EvTimer ctorThrows =>
      match pendingTimers w with
      | id :: rest =>
          connect ctorThrows
            (mkWorld (monitor w) rest (nextTimerId w) (trace w))
      | [] => w
      end
  | CallReconnect ctorThrows => reconnect ctorThrows w
  | CallDisconnect => disconnect w
  end.

Definition run (w : World) (evs : list Event) : World := fold_left step evs w.

(** The reconnect attempts scheduled so far, and whether the monitor has
    given up. *)
Definition isSetTimeout (e : Effect) : bool :=
  match e with SetTimeout _ _ => true | _ => false end.

Definition isLogMaxAttempts (e : Effect) : bool :=
  match e with LogMaxAttempts => true | _ => false end.

Definition reconnectsScheduled (w : World) : nat :=
  length (filter isSetTimeout (trace w)).

Definition gaveUp (w : World) : bool := existsb isLogMaxAttempts (trace w).

(** [n] consecutive failures: the stream errors, the timer fires and the
    new source is created, [n] times over, with no [onopen] in between. *)
Fixpoint failures (n : nat) : list Event :=
  match n with
  | O => []
  | S k => EvError :: EvTimer false :: failures k
  end.

End Monitor.

End JobMonitor.

(** ** [hooks/useInfiniteScroll.ts] *)

Module PagedResponse.
Record t (T : Type) : Type := mk {
  content : list T;
  totalElements : nat;
  totalPages : nat;
  last : bool;
  first : bool;
  numberOfElements : nat
}.
Arguments mk {T}.
Arguments content {T}.
Arguments last {T}.
End PagedResponse.

Module UseInfiniteScroll.

(** What the awaited fetcher settles to: a page, or a rejection with an
    [Error] carrying a message, or with some other value. *)
Inductive Settled (T : Type) : Type :=
| Resolved (response : PagedResponse.t T)
| RejectedError (message : string)
| RejectedOther.
Arguments Resolved {T} response.
Arguments RejectedError {T} message.
Arguments RejectedOther {T}.

Section Hook.
Context {T : Type}.

Variable fetcher : nat -> nat -> Settled T.
Variable pageSize : nat.
Variable initialPage : nat.

(** The hook's state cells and the [isLoadingRef] ref. *)
Record State : Type := mkState {
  items : list T;
  page : nat;
  loading : bool;
  error : option string;
  hasMore : bool;
  isLoadingRef : bool
}.


(** [loadMore] up to the [await]. *)
Definition loadMore_begin (s : State) : State :=
  mkState (items s) (page s) true None (hasMore s) true.

(** [loadMore] from the [await] on: the updaters run on the state of that
    moment, then the [finally] block. *)
Definition loadMore_settle (r : Settled T) (s : State) : State :=
  let s1 :=
    match r with
    | Resolved response =>
        mkState (items s ++ PagedResponse.content response)%list
                (page s + 1)
                (loading s) (error s)
                (negb (PagedResponse.last response))
                (isLoadingRef s)
    | RejectedError message =>
        mkState (items s) (page s) (loading s) (Some message) (hasMore s)
                (isLoadingRef s)
    | RejectedOther =>
        mkState (items s) (page s) (loading s)
                (Some "데이터를 불러오는데 실패했습니다.") (hasMore s)
                (isLoadingRef s)
    end in
  mkState (items s1) (page s1) false (error s1) (hasMore s1) false.



Definition reset (s : State) : State :=
  mkState [] initialPage false None true false.

Definition addItem (item : T) (s : State) : State :=
  mkState (item :: items s) (page s) (loading s) (error s) (hasMore s)
          (isLoadingRef s).

End Hook.

End UseInfiniteScroll.

(** ** [services/apiClient.ts] *)

Module ApiError.
Record t : Type := mk {
  timestamp : string;
  status : Z;
  error : string;
  message : string;
  path : string
}.
End ApiError.

Module ApiClient.

(** A thrown value: an [ApiClientError] with its [apiError] field, another
    [Error] with its name and message, or a value that is no [Error]. *)
Inductive Thrown : Type :=
| ApiClientError (apiError : ApiError.t)
| OtherError (name message : string)
| NotAnError.

(** A settled promise. *)
Inductive Settled (A : Type) : Type :=
| Fulfilled (a : A)
| Rejected (e : Thrown).
Arguments Fulfilled {A} a.
Arguments Rejected {A} e.

(** What a [return] statement of an [async] function hands over: a value,
    or a promise that was not awaited, given by what it settles to. The
    function's own promise then follows that promise. *)
Inductive Returned (A : Type) : Type :=
| Value (a : A)
| Promise (p : Settled A).
Arguments Value {A} a.
Arguments Promise {A} p.

Section Request.

(** A parsed JSON body; error bodies are read at their declared type
    [ApiError]. *)
Variable Json : Type.
Variable asApiError : Json -> ApiError.t.

(** [new Date().toISOString()] *)
Variable now : string.

Record Response : Type := mkResponse {
  status : Z;
  statusText : string;
  contentType : option string;
  json : Settled Json
}.

(** [response.ok]: the status is in the range 200 to 299. *)
Definition ok (response : Response) : bool :=
  (200 <=? status response)%Z && (status response <=? 299)%Z.

(** What [request<T>] can return: the parsed body, or the response itself. *)
Inductive Result : Type :=
| Body (j : Json)
| Raw (r : Response).

(** [s.includes(sub)] *)
Definition includes (s sub : string) : bool :=
  match String.index 0 sub s with Some _ => true | None => false end.

Definition decimal (n : Z) : string := NilZero.string_of_int (Z.to_int n).

(** The default error object of the inner [catch]. *)
Definition defaultError (endpoint : string) (response : Response) : ApiError.t :=
  ApiError.mk now (status response) (statusText response)
    ("HTTP " ++ decimal (status response) ++ ": " ++ statusText response)
    endpoint.

(** The error object of the outer [catch]. *)
Definition networkError (endpoint : string) (error : Thrown) : ApiError.t :=
  ApiError.mk now 0 "Network Error"
    (match error with
     | OtherError _ message => message
     | ApiClientError e => ApiError.message e
     | NotAnError => "Unknown error occurred"
     end)
    endpoint.

(** The [try] block: it completes by a [return] or by a throw. Only what
    is awaited inside the block can throw there. *)
Definition request_try (endpoint : string) (fetched : Settled Response)
    : Settled (Returned Result) :=
  match fetched with
  | Rejected e => Rejected e
  | Fulfilled response =>
      if ok response then
        if match contentType response with
           | Some ct => negb (ct =? "") && includes ct "application/json"
           | None => false
           end
        then Fulfilled (Promise (match json response with
                                 | Fulfilled j => Fulfilled (Body j)
                                 | Rejected e => Rejected e
                                 end))
        else Fulfilled (Value (Raw response))
      else
        let errorData :=
          match json response with
          | Fulfilled j => asApiError j
          | Rejected _ => defaultError endpoint response
          end in
        Rejected (ApiClientError errorData)
  end.

(** The [catch] clause. *)
Definition request_catch (endpoint : string) (error : Thrown)
    : Settled (Returned Result) :=
  match error with
  | ApiClientError e => Rejected (ApiClientError e)
  | _ => Rejected (ApiClientError (networkError endpoint error))
  end.

(** [request]: what the promise it returns settles to, given what [fetch]
    settles to. *)
Definition request (endpoint : string) (fetched : Settled Response)
    : Settled Result :=
  let completion :=
    match request_try endpoint fetched with
    | Rejected error => request_catch endpoint error
    | c => c
    end in
  match completion with
  | Fulfilled (Value v) => Fulfilled v
  | Fulfilled (Promise p) => p
  | Rejected e => Rejected e
  end.

Definition isApiClientError (e : Thrown) : bool :=
  match e with ApiClientError _ => true | _ => false end.

End Request.

Arguments mkResponse {Json}.
Arguments status {Json}.
Arguments statusText {Json}.
Arguments contentType {Json}.
Arguments json {Json}.
Arguments ok {Json}.
Arguments Body {Json}.
Arguments Raw {Json}.
Arguments defaultError {Json}.
Arguments request_try {Json}.
Arguments request_catch {Json}.
Arguments request {Json}.

End ApiClient.

(** ** [components/InfiniteJobList.tsx]: the filter controls *)

Module JobListControls.
Import Js InfiniteJobList.


(** [cond && label]: the label when the condition is truthy, the falsy
    condition itself (dropped by the filter below) otherwise. *)
Definition and_label (cond : bool) (label : string) : option string :=
  if cond then Some label else None.

(** [array.filter(Boolean)] *)
Definition filterBoolean (l : list (option string)) : list string :=
  flat_map (fun o => match o with
                     | Some s => if str_truthy (Some s) then [s] else []
                     | None => []
                     end) l.

(** The labels of the badge beside the list title. *)
Definition activeFilters (filters : JobFilter.t) (dateRange : DateRange.t)
    : list string :=
  filterBoolean
    [ and_label (str_truthy (JobFilter.inputArtifactId filters)) "파일";
      and_label (str_truthy (JobFilter.tool filters)) "도구";
      and_label (str_truthy (DateRange.startDate dateRange)
                 || str_truthy (DateRange.endDate dateRange)) "날짜";
      and_label (str_truthy (JobFilter.status filters)) "상태" ].

(** No filter component holds a non-empty string. *)
Definition nothing_set (filters : JobFilter.t) (dateRange : DateRange.t) : Prop :=
  str_truthy (JobFilter.inputArtifactId filters) = false
  /\ str_truthy (JobFilter.tool filters) = false
  /\ str_truthy (JobFilter.status filters) = false
  /\ str_truthy (DateRange.startDate dateRange) = false
  /\ str_truthy (DateRange.endDate dateRange) = false.

End JobListControls.

(** ** [services/apiClient.ts]: [get] and [handleApiError] *)

Module ApiClientMethods.
Import ApiClient.

(** [a || b] on strings. *)
Definition or_else (a b : string) : string := if a =? "" then b else a.

Definition handleApiError (error : Thrown) : string :=
  match error with
  | ApiClientError apiError =>
      if (ApiError.status apiError =? 400)%Z then
        or_else (ApiError.message apiError) "잘못된 요청입니다."
      else if (ApiError.status apiError =? 404)%Z then
        or_else (ApiError.message apiError) "요청한 리소스를 찾을 수 없습니다."
      else if (ApiError.status apiError =? 500)%Z then
        "서버 오류가 발생했습니다. 잠시 후 다시 시도해주세요."
      else
        or_else (ApiError.message apiError) "알 수 없는 오류가 발생했습니다."
  | OtherError _ message => message
  | NotAnError => "알 수 없는 오류가 발생했습니다."
  end.

Section Get.
Variable Json : Type.
Variable asApiError : Json -> ApiError.t.
Variable now : string.

(** [get]: [request] with the method set; it settles as [request] does. *)
Definition get (endpoint : string) (fetched : Settled (Response Json))
    : Settled (Result Json) :=
  request asApiError now endpoint fetched.

End Get.

Arguments get {Json}.

End ApiClientMethods.

(** ** [services/jobService.ts]: [JobService.list] *)

Module JobService.
Import Js ApiClient ApiClientMethods.

(** [n.toString()] for a page number or a page size. *)
Definition decimal (n : nat) : string := NilZero.string_of_uint (Nat.to_uint n).

(** [if (v) params.append(key, v)] *)
Definition appendIfSet (key : string) (v : option string)
    (params : list (string * string)) : list (string * string) :=
  match v with
  | Some s => if str_truthy (Some s) then (params ++ [(key, s)])%list else params
  | None => params
  end.

(** The entries of the [URLSearchParams] that [list] builds, in order. *)
Definition listParams (page size : nat) (filters : option JobFilter.t)
    : list (string * string) :=
  let params := [("page", decimal page); ("size", decimal size)] in
  let field (f : JobFilter.t -> option string) : option string :=
    match filters with Some fl => f fl | None => None end in
  let params := appendIfSet "inputArtifactId" (field JobFilter.inputArtifactId) params in
  let params := appendIfSet "startDate" (field JobFilter.startDate) params in
  let params := appendIfSet "endDate" (field JobFilter.endDate) params in
  let params := appendIfSet "status" (field JobFilter.status) params in
  appendIfSet "tool" (field JobFilter.tool) params.


Section List.
Variable Json : Type.
Variable asApiError : Json -> ApiError.t.
Variable now : string.

(** [params.toString()] *)
Variable URLSearchParams_toString : list (string * string) -> string.

(** [list]: the awaited [get] inside [try], and the [catch] that throws a
    new [Error] with the message of [handleApiError]. *)
Definition list (page size : nat) (filters : option JobFilter.t)
    (fetched : Settled (Response Json)) : Settled (Result Json) :=
  match get asApiError now
          ("/jobs?" ++ URLSearchParams_toString (listParams page size filters))
          fetched with
  | Fulfilled v => Fulfilled v
  | Rejected error => Rejected (OtherError "Error" (handleApiError error))
  end.

End List.

Arguments list {Json}.

End JobService.

(** ** Runs of the monitor and of the pager *)

Module JobMonitorRuns.
Import JobMonitor.

(** An event the browser delivers, as against a call by the owner. *)
Definition fromBrowser (ev : Event) : bool :=
  match ev with
  | EvOpen | EvMessage _ | EvError | EvTimer _ => true
  | CallReconnect _ | CallDisconnect => false
  end.

(** An event other than a stream error or a call by the owner. *)
Definition untroubled (ev : Event) : bool :=
  match ev with
  | EvOpen | EvMessage _ | EvTimer _ => true
  | EvError | CallReconnect _ | CallDisconnect => false
  end.

(** What holds of the timers of a monitor at any time: at most one is
    pending, it is the one the monitor remembers, and no source is held
    while it is pending. *)
Definition timers_ok (w : World) : Prop :=
  pendingTimers w = []
  \/ exists id, pendingTimers w = [id]
       /\ reconnectTimer (monitor w) = Some id
       /\ eventSource (monitor w) = None.

(** What a run without stream errors and without calls by the owner keeps
    true: the reconnects scheduled are counted by the attempt counter for
    as long as no source is held, and stay within the bound. *)
Definition within_budget (w : World) : Prop :=
  timers_ok w
  /\ reconnectsScheduled w <= maxReconnectAttempts
  /\ (eventSource (monitor w) = None ->
      reconnectAttempts (monitor w) = reconnectsScheduled w).

End JobMonitorRuns.

Module UseInfiniteScrollRuns.
Import UseInfiniteScroll.

Section Runs.
Context {T : Type}.
Variable fetcher : nat -> nat -> Settled T.
Variable pageSize : nat.


End Runs.

End UseInfiniteScrollRuns.

(** ** [components/DateRangePicker.tsx] *)

Module DateRangePicker.
Import Js.

(** The local-time fields of a valid [Date], as [getFullYear], [getMonth]
    (0 to 11) and [getDate] return them. *)
Record LocalDate : Type := mkDate {
  getFullYear : Z;
  getMonth : Z;
  getDate : Z
}.

(** [s.padStart(targetLength, c)] for a one-character pad string. *)
Definition padStart (targetLength : nat) (c : ascii) (s : string) : string :=
  string_of_list_ascii (repeat c (targetLength - String.length s)) ++ s.

Definition formatDateToLocal (date : LocalDate) : string :=
  ToString (JNumber (getFullYear date)) ++ "-"
  ++ padStart 2 "0"%char (ToString (JNumber (getMonth date + 1))) ++ "-"
  ++ padStart 2 "0"%char (ToString (JNumber (getDate date))).

(** Calendar order on the fields. *)
Definition compareDates (a b : LocalDate) : comparison :=
  match (getFullYear a ?= getFullYear b)%Z with
  | Eq =>
      match (getMonth a ?= getMonth b)%Z with
      | Eq => (getDate a ?= getDate b)%Z
      | c => c
      end
  | c => c
  end.

(** A date of a four-digit year. *)
Definition four_digit_year (d : LocalDate) : Prop :=
  (1000 <= getFullYear d <= 9999)%Z
  /\ (0 <= getMonth d <= 11)%Z
  /\ (1 <= getDate d <= 31)%Z.

Inductive Step : Type := start | finish.

(** The state cells the handlers write. [finish] is the step ['end']. *)
Record State : Type := mkState {
  isOpen : bool;
  tempRange : DateRange.t;
  selectionStep : Step
}.

(** [a <= b] on strings. *)
Definition le (a b : string) : bool := negb (String.ltb b a).

(** [handleDateClick]: the new state, and the range handed to [onChange]
    if it is called. *)
Definition handleDateClick (date : string) (s : State)
    : State * option DateRange.t :=
  match selectionStep s with
  | start =>
      (mkState (isOpen s) (DateRange.mk (Some date) None) finish, None)
  | finish =>
      let finalRange :=
        if str_truthy (DateRange.startDate (tempRange s))
           && lt_opt date (DateRange.startDate (tempRange s))
        then DateRange.mk (Some date) (DateRange.startDate (tempRange s))
        else DateRange.mk (DateRange.startDate (tempRange s)) (Some date) in
      (mkState false finalRange start, Some finalRange)
  end.

Definition handleApply (s : State) : State * option DateRange.t :=
  (mkState false (tempRange s) start, Some (tempRange s)).

Definition handleClear (s : State) : State * option DateRange.t :=
  (mkState false DateRange.none start, Some DateRange.none).

(** A click outside the picker, with [value] the range of the owner. *)
Definition handleClickOutside (value : DateRange.t) (s : State) : State :=
  mkState false value start.

(** The body of [isDateInRange] once the date is formatted. *)
Definition inRange (dateStr : string) (tempRange : DateRange.t)
    (hoverDate : option string) (selectionStep : Step) : bool :=
  match DateRange.startDate tempRange with
  | None => false
  | Some startDate =>
      if negb (str_truthy (Some startDate)) then false
      else if negb (str_truthy (DateRange.endDate tempRange))
              && str_truthy hoverDate
              && match selectionStep with finish => true | start => false end
      then
        match hoverDate with
        | Some hover =>
            let actualStart := if le startDate hover then startDate else hover in
            let actualEnd := if le startDate hover then hover else startDate in
            ge dateStr actualStart && le dateStr actualEnd
        | None => false
        end
      else
        match DateRange.endDate tempRange with
        | Some endDate =>
            if str_truthy (Some endDate)
            then ge dateStr startDate && le dateStr endDate
            else dateStr =? startDate
        | None => dateStr =? startDate
        end
  end.

Definition isDateInRange (date : LocalDate) (tempRange : DateRange.t)
    (hoverDate : option string) (selectionStep : Step) : bool :=
  inRange (formatDateToLocal date) tempRange hoverDate selectionStep.

(** The month shown, and the two navigation buttons. *)
Record Shown : Type := mkShown {
  currentYear : Z;
  currentMonth : Z
}.

Definition previousMonth (v : Shown) : Shown :=
  if (currentMonth v =? 0)%Z
  then mkShown (currentYear v - 1) 11
  else mkShown (currentYear v) (currentMonth v - 1).

Definition nextMonth (v : Shown) : Shown :=
  if (currentMonth v =? 11)%Z
  then mkShown (currentYear v + 1) 0
  else mkShown (currentYear v) (currentMonth v + 1).

(** The integers from [from] on, [n] of them. *)
Fixpoint Zrange (from : Z) (n : nat) : list Z :=
  match n with
  | O => []
  | S k => from :: Zrange (from + 1) k
  end.

(** The decimal numeral of a number, as [String] prints it. *)
Definition numeral (n : Z) : string := ToString (JNumber n).

(** The four-digit years, and the numbers that a month or a day can be. *)
Definition years : list Z := Zrange 1000 (Z.to_nat 9000).
Definition days : list Z := Zrange 1 31.

(** The day [d] is [a], [b] or a day between them, [a] being the earlier. *)
Definition on_or_between (a b d : LocalDate) : Prop :=
  compareDates a d <> Gt /\ compareDates d b <> Gt.

(** The range is set at both ends, in order. *)
Definition ordered_range (r : DateRange.t) : Prop :=
  exists a b, DateRange.startDate r = Some a /\ DateRange.endDate r = Some b
              /\ lex_le a b.

End DateRangePicker.

(** ** Sample data for the worked examples *)

Module Sample.
Import Js.

(** A stand-in for the engine's date parser: the digits of the string read
    as one decimal number, [NaN] when there is none. On timestamps of one
    fixed layout it orders as time does. *)
Definition digit_of (c : ascii) : option Z :=
  let n := Z.of_N (N_of_ascii c) in
  if (48 <=? n)%Z && (n <=? 57)%Z then Some (n - 48)%Z else None.

Fixpoint digits (s : string) (acc : option Z) : option Z :=
  match s with
  | EmptyString => acc
  | String c r =>
      match digit_of c with
      | Some d =>
          digits r (Some (10 * match acc with Some a => a | None => 0 end + d)%Z)
      | None => digits r acc
      end
  end.

Definition digitsTime (s : string) : option Z := digits s None.

Definition job (id : JsVal) (tool : string) (createdAt updatedAt : option string)
    (jobStatus : string) : JobDto.t :=
  JobDto.mk id (Some "task") (JString "artifact-1") (Some "sample") None
            (Some tool) None createdAt updatedAt None None (Some jobStatus) None.

(** Two pages' worth of base jobs, newest first. *)
Definition base : list JobDto.t :=
  [ job (JNumber 2) "mafft" (Some "2025-09-11T08:00:00") (Some "2025-09-11T08:00:00")
        "PENDING";
    job (JString "1") "uclust" (Some "2025-09-10T10:00:00")
        (Some "2025-09-10T10:00:00") "RUNNING" ].

(** The live map after three SSE updates: job 2 is running, job 3 is new,
    job 4 is new and has no creation date. *)
Definition live : JsMap.t JobDto.t :=
  [ ("2", job (JString "2") "mafft" None (Some "2025-09-11T08:05:00") "RUNNING");
    ("3", job (JString "3") "vsearch" (Some "2025-09-12T09:00:00")
              (Some "2025-09-12T09:00:00") "PENDING");
    ("4", job (JString "4") "mafft" None None "PENDING") ].

Definition onlyMafft : JobFilter.t :=
  JobFilter.mk None None None None (Some "mafft").

Definition fromSeptember11 : DateRange.t :=
  DateRange.mk (Some "2025-09-11") None.

Definition untilSeptember11 : DateRange.t :=
  DateRange.mk None (Some "2025-09-11").


(** A stand-in for [JSON.parse] on the messages of the examples. *)
Definition parse (data : string) : option JobMonitor.Parsed :=
  if data =? "job-3-running" then
    Some (JobMonitor.PObject (job (JNumber 3) "vsearch" None None "RUNNING"))
  else if data =? "keep-alive" then
    Some (JobMonitor.PObject
            (JobDto.mk (JString "0") (Some "KEEP_ALIVE") JUndefined None None None
                       None None None None None None None))
  else if data =? "no-id" then
    Some (JobMonitor.PObject (job JUndefined "mafft" None None "PENDING"))
  else if data =? "null" then Some JobMonitor.PNull
  else if data =? "42" then Some JobMonitor.POther
  else None.

End Sample.

(** ** More sample data *)

Module MoreSamples.
Import Js Sample.

(** The same job reported twice, its identifier once as a number and once
    as a string. *)
Definition twoUpdates : JsMap.t JobDto.t :=
  InfiniteJobList.onSseUpdate
    (InfiniteJobList.onSseUpdate JsMap.empty
       (job (JNumber 3) "vsearch" None (Some "2025-09-12T09:00:00") "PENDING"))
    (job (JString "3") "vsearch" None (Some "2025-09-12T09:05:00") "RUNNING").

(** A live map with an update of a listed job only, and one with jobs that
    are not listed only. *)
Definition liveOfBase : JsMap.t JobDto.t :=
  [ ("2", job (JString "2") "mafft" None (Some "2025-09-11T08:05:00") "RUNNING") ].

Definition liveOnly : JsMap.t JobDto.t :=
  [ ("3", job (JString "3") "vsearch" (Some "2025-09-12T09:00:00")
              (Some "2025-09-12T09:00:00") "PENDING");
    ("4", job (JString "4") "mafft" None None "PENDING") ].

Definition job1 : JobDto.t :=
  job (JString "1") "uclust" (Some "2025-09-10T10:00:00")
      (Some "2025-09-10T10:00:00") "RUNNING".

Definition job1Done : JobDto.t :=
  job (JNumber 1) "uclust" None (Some "2025-09-10T10:30:00") "SUCCESS".

Definition job5 : JobDto.t :=
  job (JNumber 5) "mafft" (Some "2025-09-13T07:00:00")
      (Some "2025-09-13T07:00:00") "PENDING".






Definition september9 : DateRangePicker.LocalDate := DateRangePicker.mkDate 2025 8 9.
Definition september11 : DateRangePicker.LocalDate := DateRangePicker.mkDate 2025 8 11.
Definition november1 : DateRangePicker.LocalDate := DateRangePicker.mkDate 2025 10 1.

Definition closedPicker : DateRangePicker.State :=
  DateRangePicker.mkState true DateRange.none DateRangePicker.start.

End MoreSamples.

(** * Properties *)

(** ** Strings *)

Section StringFacts.
Import Js.

Lemma lex_le_refl (s : string) : lex_le s s.
Proof. induction s; constructor; assumption. Qed.

Lemma lex_le_antisym (a b : string) : lex_le a b -> lex_le b a -> a = b.
Proof.
  intros H; induction H; intros H'; inversion H'; subst; try reflexivity.
  - lia.
  - lia.
  - lia.
  - f_equal; auto.
Qed.

Lemma compare_lex (a b : string) :
  match String.compare a b with
  | Lt => lex_le a b /\ a <> b
  | Eq => a = b
  | Gt => lex_le b a /\ a <> b
  end.
Proof.
  revert b; induction a as [|c a IH]; intros [|d b]; simpl.
  - reflexivity.
  - split; [constructor | discriminate].
  - split; [constructor | discriminate].
  - unfold Ascii.compare.
    destruct (N.compare_spec (N_of_ascii c) (N_of_ascii d)) as [E|L|G].
    + assert (c = d) by (rewrite <- (ascii_N_embedding c), <- (ascii_N_embedding d), E; reflexivity).
      subst d. specialize (IH b).
      destruct (String.compare a b).
      * now subst.
      * destruct IH; split; [now constructor | congruence].
      * destruct IH; split; [now constructor | congruence].
    + split; [now constructor | intros [= -> _]; lia].
    + split; [now constructor | intros [= -> _]; lia].
Qed.

Lemma ltb_false_lex (a b : string) : String.ltb a b = false <-> lex_le b a.
Proof.
  unfold String.ltb. pose proof (compare_lex a b) as H.
  destruct (String.compare a b); split; intros; try discriminate; try reflexivity.
  - subst; apply lex_le_refl.
  - destruct H as [H1 H2]. exfalso. apply H2. now apply lex_le_antisym.
  - apply H.
Qed.

Lemma ltb_true_lex (a b : string) : String.ltb a b = true <-> lex_lt a b.
Proof.
  unfold String.ltb, lex_lt. pose proof (compare_lex a b) as H.
  destruct (String.compare a b); split; intros; try discriminate; try reflexivity; try assumption.
  - destruct H0; congruence.
  - destruct H as [H1 H2], H0 as [H3 _]. exfalso. apply H2. now apply lex_le_antisym.
Qed.

Lemma ge_lex (a b : string) : ge a b = true <-> lex_le b a.
Proof. unfold ge. rewrite negb_true_iff. apply ltb_false_lex. Qed.

Lemma str_truthy_true (o : option string) :
  str_truthy o = true <-> exists s, o = Some s /\ s <> "".
Proof.
  destruct o as [s|]; simpl.
  - rewrite negb_true_iff. destruct (String.eqb_spec s "").
    + split; [discriminate | intros (x & [= ->] & Hx); contradiction].
    + split; [eauto | reflexivity].
  - split; [discriminate | intros (x & Hx & _); discriminate].
Qed.

Lemma str_truthy_false (o : option string) :
  str_truthy o = false <-> o = None \/ o = Some "".
Proof.
  destruct o as [s|]; simpl.
  - rewrite negb_false_iff. destruct (String.eqb_spec s "").
    + subst; split; auto.
    + split; [discriminate | intros [H|[= H]]; [discriminate | contradiction]].
  - split; auto.
Qed.

(** The part before the first ['T'] has no ['T'], and the string is that
    part alone or that part, a ['T'], and a rest. *)
Lemma split_T_0_spec (s : string) :
  (forall r1 r2, split_T_0 s <> r1 ++ String "T"%char r2)
  /\ (s = split_T_0 s \/ exists r, s = split_T_0 s ++ String "T"%char r).
Proof.
  induction s as [|c s [IH1 IH2]]; simpl.
  - split; [intros [|] ?; discriminate | now left].
  - destruct (Ascii.eqb_spec c "T"%char) as [->|Hc].
    + split; [intros [|] ?; discriminate | right; now exists s].
    + split.
      * intros [|d r1] r2; simpl; intros [= E1 E2]; [contradiction | now apply (IH1 r1 r2)].
      * destruct IH2 as [E|[r E]]; [left | right; exists r]; simpl; congruence.
Qed.

End StringFacts.

(** ** The filter predicate *)

Section FilterFacts.
Import Js InfiniteJobList.

Lemma exact_component (o v : option string) :
  str_truthy o && negb (strict_eq v o) = false
  <-> (forall s, is_set o s -> v = Some s).
Proof.
  unfold is_set. destruct o as [s|]; simpl.
  - destruct (String.eqb_spec s "") as [->|Hs]; simpl.
    + split; [intros _ x [[= <-] Hx]; contradiction | reflexivity].
    + rewrite negb_false_iff. destruct v as [x|]; simpl.
      * rewrite String.eqb_eq. split.
        -- intros -> y [[= <-] _]. reflexivity.
        -- intros H. specialize (H s (conj eq_refl Hs)). congruence.
      * split; [discriminate | intros H; specialize (H s (conj eq_refl Hs)); discriminate].
  - split; [intros _ x [Hx _]; discriminate | reflexivity].
Qed.

Lemma start_component (sd : option string) (jd : string) :
  str_truthy sd && lt_opt jd sd = false
  <-> (forall d, is_set sd d -> lex_le d jd).
Proof.
  unfold is_set, lt_opt, lt. destruct sd as [s|]; simpl.
  - destruct (String.eqb_spec s "") as [->|Hs]; simpl.
    + split; [intros _ x [[= <-] Hx]; contradiction | reflexivity].
    + rewrite ltb_false_lex. split.
      * intros H d [[= <-] _]. exact H.
      * intros H. apply H. now split.
  - split; [intros _ x [Hx _]; discriminate | reflexivity].
Qed.

Lemma end_component (ed : option string) (jd : string) :
  str_truthy ed && gt_opt jd ed = false
  <-> (forall d, is_set ed d -> lex_le jd d).
Proof.
  unfold is_set, gt_opt, gt. destruct ed as [s|]; simpl.
  - destruct (String.eqb_spec s "") as [->|Hs]; simpl.
    + split; [intros _ x [[= <-] Hx]; contradiction | reflexivity].
    + rewrite ltb_false_lex. split.
      * intros H d [[= <-] _]. exact H.
      * intros H. apply H. now split.
  - split; [intros _ x [Hx _]; discriminate | reflexivity].
Qed.

(** [matchesFilter] written as the conjunction of its five tests. *)
Lemma matchesFilter_tests (job : JobDto.t) (filters : JobFilter.t)
    (dateRange : DateRange.t) :
  matchesFilter job filters dateRange = true
  <-> str_truthy (JobFilter.inputArtifactId filters)
      && negb (strict_eq (Some (ToString (JobDto.inputArtifactId job)))
                         (JobFilter.inputArtifactId filters)) = false
      /\ str_truthy (JobFilter.tool filters)
         && negb (strict_eq (JobDto.tool job) (JobFilter.tool filters)) = false
      /\ str_truthy (JobFilter.status filters)
         && negb (strict_eq (JobDto.jobStatus job) (JobFilter.status filters)) = false
      /\ str_truthy (DateRange.startDate dateRange)
         && lt_opt (jobDate job) (DateRange.startDate dateRange) = false
      /\ str_truthy (DateRange.endDate dateRange)
         && gt_opt (jobDate job) (DateRange.endDate dateRange) = false.
Proof.
  unfold matchesFilter.
  destruct (str_truthy (JobFilter.inputArtifactId filters) && _);
    [split; [discriminate | intros (H & _); discriminate] |].
  destruct (str_truthy (JobFilter.tool filters) && _);
    [split; [discriminate | intros (_ & H & _); discriminate] |].
  destruct (str_truthy (JobFilter.status filters) && _);
    [split; [discriminate | intros (_ & _ & H & _); discriminate] |].
  destruct (str_truthy (DateRange.startDate dateRange)) eqn:Es;
  destruct (str_truthy (DateRange.endDate dateRange)) eqn:Ee; simpl;
  repeat match goal with
         | |- context [lt_opt ?a ?b] => destruct (lt_opt a b)
         | |- context [gt_opt ?a ?b] => destruct (gt_opt a b)
         end; simpl; intuition congruence.
Qed.


Lemma matchesFilter_none (job : JobDto.t) :
  matchesFilter job JobFilter.none DateRange.none = true.
Proof. reflexivity. Qed.

(** The same with components that hold the empty string, as the filter
    controls leave them when cleared. *)
Lemma matchesFilter_unset (job : JobDto.t) (filters : JobFilter.t)
    (dateRange : DateRange.t) :
  str_truthy (JobFilter.inputArtifactId filters) = false ->
  str_truthy (JobFilter.tool filters) = false ->
  str_truthy (JobFilter.status filters) = false ->
  str_truthy (DateRange.startDate dateRange) = false ->
  str_truthy (DateRange.endDate dateRange) = false ->
  matchesFilter job filters dateRange = true.
Proof.
  intros H1 H2 H3 H4 H5. unfold matchesFilter.
  rewrite H1, H2, H3, H4, H5. reflexivity.
Qed.

Lemma jobDate_missing (job : JobDto.t) :
  absent_or_empty (JobDto.createdAt job) -> jobDate job = "".
Proof. unfold jobDate. intros [->| ->]; reflexivity. Qed.

Lemma lex_le_empty_inv (d : string) : lex_le d "" -> d = "".
Proof. intros H. inversion H. reflexivity. Qed.

(** C10. A job without a creation date has the empty string as its date:
    a start date, once set, rejects it, while an end date alone lets it
    through when the other components match. *)
Theorem missing_createdAt_is_asymmetric (job : JobDto.t) (filters : JobFilter.t)
    (dateRange : DateRange.t) :
  absent_or_empty (JobDto.createdAt job) ->
  jobDate job = ""
  /\ (forall d, is_set (DateRange.startDate dateRange) d ->
                matchesFilter job filters dateRange = false)
  /\ ((forall d, ~ is_set (DateRange.startDate dateRange) d) ->
      (exists d, is_set (DateRange.endDate dateRange) d) ->
      filter_conjunction job filters DateRange.none ->
      matchesFilter job filters dateRange = true).
Proof.
  intros Hc. pose proof (jobDate_missing job Hc) as Ed.
  split; [exact Ed | split].
  - intros d Hd. destruct (matchesFilter job filters dateRange) eqn:E; [|reflexivity].
    apply matchesFilter_tests in E. destruct E as (_ & _ & _ & Hs & _).
    rewrite start_component in Hs.
    specialize (Hs d Hd). rewrite Ed in Hs. apply lex_le_empty_inv in Hs.
    destruct Hd as [_ Hd]. contradiction.
  - intros Hs _ (H1 & H2 & H3 & _ & _). apply matchesFilter_tests.
    rewrite !exact_component, start_component, end_component.
    repeat split; try assumption.
    + intros a Ha. f_equal. auto.
    + intros d Hd. exfalso. exact (Hs d Hd).
    + intros d _. rewrite Ed. constructor.
Qed.

End FilterFacts.

(** ** The insertion-ordered map *)

Section MapFacts.
Context {V : Type}.
Implicit Types (m : JsMap.t V) (k : string) (v : V).

Lemma get_set_same m k v : JsMap.get k (JsMap.set k v m) = Some v.
Proof.
  induction m as [|[k' v'] m IH]; simpl.
  - now rewrite String.eqb_refl.
  - destruct (String.eqb_spec k' k) as [->|N]; simpl.
    + now rewrite String.eqb_refl.
    + destruct (String.eqb_spec k' k); [contradiction | exact IH].
Qed.

Lemma get_set_other m k k' v :
  k' <> k -> JsMap.get k' (JsMap.set k v m) = JsMap.get k' m.
Proof.
  intros N. induction m as [|[k0 v0] m IH]; simpl.
  - destruct (String.eqb_spec k k'); [congruence | reflexivity].
  - destruct (String.eqb_spec k0 k) as [->|N0]; simpl.
    + destruct (String.eqb_spec k k'); [congruence | reflexivity].
    + now rewrite IH.
Qed.

Lemma get_None_keys m k : JsMap.get k m = None <-> ~ In k (JsMap.keys m).
Proof.
  induction m as [|[k' v'] m IH]; simpl.
  - tauto.
  - destruct (String.eqb_spec k' k) as [->|N].
    + split; [discriminate | tauto].
    + rewrite IH. tauto.
Qed.

Lemma get_Some_In m k v : JsMap.get k m = Some v -> In (k, v) m.
Proof.
  induction m as [|[k' v'] m IH]; simpl; [discriminate |].
  destruct (String.eqb_spec k' k) as [->|N].
  - intros [= ->]. now left.
  - intros H. right. auto.
Qed.

Lemma In_get_Some m k v : JsMap.ok m -> In (k, v) m -> JsMap.get k m = Some v.
Proof.
  unfold JsMap.ok, JsMap.keys.
  induction m as [|[k' v'] m IH]; simpl; [tauto |].
  intros Hnd [[= -> ->]|Hin].
  - now rewrite String.eqb_refl.
  - inversion Hnd as [|? ? Hk Hnd']; subst.
    destruct (String.eqb_spec k' k) as [->|N].
    + exfalso. apply Hk. change k with (fst (k, v)). now apply in_map.
    + auto.
Qed.

Lemma keys_set m k v :
  JsMap.keys (JsMap.set k v m)
  = if JsMap.has k m then JsMap.keys m else (JsMap.keys m ++ [k])%list.
Proof.
  unfold JsMap.has, JsMap.keys.
  induction m as [|[k' v'] m IH]; simpl; [reflexivity |].
  destruct (String.eqb_spec k' k) as [->|N]; simpl; [reflexivity |].
  rewrite IH. now destruct (JsMap.get k m).
Qed.

Lemma ok_empty : JsMap.ok (@JsMap.empty V).
Proof. constructor. Qed.

Lemma ok_set m k v : JsMap.ok m -> JsMap.ok (JsMap.set k v m).
Proof.
  unfold JsMap.ok. intros H. rewrite keys_set. unfold JsMap.has.
  destruct (JsMap.get k m) eqn:E; [assumption |].
  apply get_None_keys in E.
  apply NoDup_rev in H. rewrite <- (rev_involutive (_ ++ _)).
  apply NoDup_rev. rewrite rev_app_distr. simpl. constructor.
  - rewrite <- in_rev. exact E.
  - exact H.
Qed.

Lemma In_set m k v k' v' :
  In (k', v') (JsMap.set k v m) -> (k' = k /\ v' = v) \/ In (k', v') m.
Proof.
  induction m as [|[k0 v0] m IH]; simpl.
  - intros [[= <- <-]|[]]. now left.
  - destruct (String.eqb_spec k0 k) as [->|N]; simpl.
    + intros [[= <- <-]|H]; [now left | right; now right].
    + intros [[= <- <-]|H]; [right; now left |].
      destruct (IH H) as [?|?]; [now left | right; now right].
Qed.

Lemma set_In_other m k v k' v' :
  In (k', v') m -> k' <> k -> In (k', v') (JsMap.set k v m).
Proof.
  intros H N. induction m as [|[k0 v0] m IH]; simpl in *; [contradiction |].
  destruct (String.eqb_spec k0 k) as [->|N0]; simpl.
  - destruct H as [[= -> ->]|H]; [contradiction | now right].
  - destruct H as [H|H]; [now left | right; auto].
Qed.

Lemma set_In_same m k v : In (k, v) (JsMap.set k v m).
Proof. apply get_Some_In, get_set_same. Qed.

End MapFacts.

(** ** The live-update map under SSE updates *)

Section UpdateFacts.
Import Js InfiniteJobList.

Lemma shouldStore_not_stale (prev : JsMap.t JobDto.t) (u : JobDto.t) :
  shouldStore (JsMap.get (toKey (JobDto.id u)) prev) u = true <-> not_stale prev u.
Proof.
  unfold not_stale, absent_or_empty.
  destruct (JsMap.get (toKey (JobDto.id u)) prev) as [e|]; simpl.
  - rewrite !orb_true_iff, !negb_true_iff, !str_truthy_false. split.
    + intros [[Hu|He]|Hge].
      * now right; left.
      * right; right. exists e. split; [reflexivity | now left].
      * right; right. exists e. split; [reflexivity | right].
        unfold ge_opt in Hge.
        destruct (JobDto.updatedAt u) as [tu|]; [|discriminate].
        destruct (JobDto.updatedAt e) as [te|]; [|discriminate].
        exists tu, te. repeat split. now apply ge_lex.
    + intros [H|[Hu|(e' & [= <-] & [He|(tu & te & Eu & Ee & Hle)])]].
      * discriminate.
      * now left; left.
      * now left; right.
      * right. rewrite Eu, Ee. simpl. now apply ge_lex.
  - split; [now left | reflexivity].
Qed.



(** C8. One SSE update touches at most the entry under the key of its own
    identifier: the entry under any other key is what it was. *)
Theorem onSseUpdate_other_keys_unchanged (prev : JsMap.t JobDto.t)
    (u : JobDto.t) (k' : string) :
  k' <> toKey (JobDto.id u) ->
  JsMap.get k' (onSseUpdate prev u) = JsMap.get k' prev.
Proof.
  intros N. unfold onSseUpdate.
  destruct (shouldStore _ u); [now apply get_set_other | reflexivity].
Qed.

(** The map stays a map, and every entry stays under the key of its own
    identifier, through updates and filter changes. *)
Lemma onSseUpdate_ok (prev : JsMap.t JobDto.t) (u : JobDto.t) :
  JsMap.ok prev -> JsMap.ok (onSseUpdate prev u).
Proof.
  intros H. unfold onSseUpdate. destruct (shouldStore _ u); [now apply ok_set | exact H].
Qed.

Lemma onSseUpdate_keyed (prev : JsMap.t JobDto.t) (u : JobDto.t) :
  keyed_by_id prev -> keyed_by_id (onSseUpdate prev u).
Proof.
  intros H k job. unfold onSseUpdate. destruct (shouldStore _ u); [|apply H].
  intros Hin. apply In_set in Hin. destruct Hin as [[-> ->]|Hin]; [reflexivity | now apply H].
Qed.

Lemma onFilterChange_ok (prev : JsMap.t JobDto.t) filters dateRange :
  JsMap.ok prev -> JsMap.ok (onFilterChange prev filters dateRange).
Proof.
  unfold JsMap.ok, JsMap.keys, onFilterChange.
  induction prev as [|[k v] m IH]; simpl; [auto |].
  intros H. inversion H as [|? ? Hk Hm]; subst.
  destruct (matchesFilter v filters dateRange); simpl; [|auto].
  constructor; [|auto].
  intros Hin. apply Hk. apply in_map_iff in Hin. destruct Hin as (x & Ex & Hx).
  apply filter_In in Hx. apply in_map_iff. exists x. tauto.
Qed.

Lemma onFilterChange_keyed (prev : JsMap.t JobDto.t) filters dateRange :
  keyed_by_id prev -> keyed_by_id (onFilterChange prev filters dateRange).
Proof.
  intros H k job Hin. apply filter_In in Hin. now apply H.
Qed.

Lemma live_reachable_invariant (L : JsMap.t JobDto.t) :
  live_reachable L -> JsMap.ok L /\ keyed_by_id L.
Proof.
  induction 1 as [|prev u _ [IH1 IH2]|prev f d _ [IH1 IH2]].
  - split; [apply ok_empty | intros k j []].
  - split; [now apply onSseUpdate_ok | now apply onSseUpdate_keyed].
  - split; [now apply onFilterChange_ok | now apply onFilterChange_keyed].
Qed.

End UpdateFacts.

(** ** Sorting *)

Section SortFacts.
Context {A : Type} (comparefn : A -> A -> option Z).

Lemma insert_perm (x : A) (l : list A) :
  Permutation (JsArray.insert comparefn x l) (x :: l).
Proof.
  induction l as [|y r IH]; simpl; [apply Permutation_refl |].
  destruct (JsArray.SortCompare comparefn x y <=? 0)%Z; [apply Permutation_refl |].
  eapply perm_trans; [apply perm_skip, IH | apply perm_swap].
Qed.

Lemma sort_perm (l : list A) : Permutation (JsArray.sort comparefn l) l.
Proof.
  induction l as [|x l IH]; simpl; [constructor |].
  eapply perm_trans; [apply insert_perm | now apply perm_skip].
Qed.

Lemma sort_In (l : list A) (x : A) : In x (JsArray.sort comparefn l) <-> In x l.
Proof.
  split; apply Permutation_in; [apply sort_perm | apply Permutation_sym, sort_perm].
Qed.

(** With an order [R] that the comparator decides on the elements at hand
    and that is transitive, the result is sorted. *)
Variable R : A -> A -> Prop.
Variable good : A -> Prop.
Hypothesis R_trans : forall x y z, R x y -> R y z -> R x z.
Hypothesis cmp_le : forall x y, good x -> good y ->
  (JsArray.SortCompare comparefn x y <= 0)%Z -> R x y.
Hypothesis cmp_gt : forall x y, good x -> good y ->
  (0 < JsArray.SortCompare comparefn x y)%Z -> R y x.



End SortFacts.

(** ** The displayed list *)

Section DisplayFacts.
Import Js InfiniteJobList.

Variable Date_getTime : string -> option Z.

(** *** De-duplication *)

Lemma keys_set_incl {V : Type} (m : JsMap.t V) k v k' :
  In k' (JsMap.keys m) -> In k' (JsMap.keys (JsMap.set k v m)).
Proof.
  rewrite keys_set. destruct (JsMap.has k m); [auto | intros; apply in_or_app; now left].
Qed.

Lemma keys_set_new {V : Type} (m : JsMap.t V) k v :
  In k (JsMap.keys (JsMap.set k v m)).
Proof.
  change k with (fst (k, v)) at 1. apply in_map, set_In_same.
Qed.

Lemma addUnique_inv (m : JsMap.t JobDto.t) (seen : list JobDto.t) (a : JobDto.t) :
  unique_inv m seen -> unique_inv (addUnique m a) (seen ++ [a]).
Proof.
  intros (Hok & Hin & Hcov).
  assert (Hset : unique_inv (JsMap.set (jobKey a) a m) (seen ++ [a])).
  { split; [now apply ok_set | split].
    - intros k v H. apply In_set in H. destruct H as [[-> ->]|H].
      + split; [reflexivity | apply in_or_app; right; now left].
      + destruct (Hin k v H). split; [assumption | apply in_or_app; now left].
    - intros b Hb. apply in_app_or in Hb. destruct Hb as [Hb|[<-|[]]].
      + apply keys_set_incl. auto.
      + apply keys_set_new. }
  unfold addUnique. fold (jobKey a).
  destruct (JsMap.get (jobKey a) m) as [existing|] eqn:E; [|exact Hset].
  destruct (str_truthy (JobDto.updatedAt a) && _ && _); [exact Hset |].
  split; [assumption | split].
  - intros k v H. destruct (Hin k v H). split; [assumption | apply in_or_app; now left].
  - intros b Hb. apply in_app_or in Hb. destruct Hb as [Hb|[<-|[]]]; [auto |].
    apply get_Some_In in E. change (jobKey a) with (fst (jobKey a, existing)).
    now apply in_map.
Qed.

Lemma fold_addUnique_inv (l : list JobDto.t) (m : JsMap.t JobDto.t)
    (seen : list JobDto.t) :
  unique_inv m seen -> unique_inv (fold_left addUnique l m) (seen ++ l).
Proof.
  revert m seen. induction l as [|a l IH]; intros m seen H; simpl.
  - now rewrite app_nil_r.
  - replace (seen ++ a :: l)%list with ((seen ++ [a]) ++ l)%list
      by (rewrite <- app_assoc; reflexivity).
    apply IH. now apply addUnique_inv.
Qed.

Lemma uniqueJobs_inv (allJobs : list JobDto.t) :
  unique_inv (uniqueJobs allJobs) allJobs.
Proof.
  apply (fold_addUnique_inv allJobs JsMap.empty []).
  split; [apply ok_empty | split; intros; contradiction].
Qed.

(** The values of the de-duplicated map: drawn from [allJobs], one for
    every key of [allJobs], no key twice. *)
Lemma uniqueJobs_values (allJobs : list JobDto.t) :
  let finalJobs := JsMap.values (uniqueJobs allJobs) in
  (forall v, In v finalJobs -> In v allJobs)
  /\ (forall a, In a allJobs -> exists v, In v finalJobs /\ jobKey v = jobKey a)
  /\ NoDup (map jobKey finalJobs).
Proof.
  destruct (uniqueJobs_inv allJobs) as (Hok & Hin & Hcov). simpl.
  unfold JsMap.values. repeat split.
  - intros v Hv. apply in_map_iff in Hv. destruct Hv as ([k v'] & <- & Hv).
    now apply (Hin k v').
  - intros a Ha. specialize (Hcov a Ha). unfold JsMap.keys in Hcov.
    apply in_map_iff in Hcov. destruct Hcov as ([k v] & Ek & Hkv). simpl in Ek.
    exists v. split; [now apply (in_map snd _ (k, v)) |].
    destruct (Hin k v Hkv). congruence.
  - rewrite map_map.
    replace (map (fun x => jobKey (snd x)) (uniqueJobs allJobs))
      with (JsMap.keys (uniqueJobs allJobs)); [exact Hok |].
    unfold JsMap.keys. apply map_ext_in. intros [k v] H. simpl.
    destruct (Hin k v H). congruence.
Qed.

(** *** The union before de-duplication *)

Lemma existsInJobs_true (B : list JobDto.t) (k : string) :
  existsInJobs B k = true <-> In k (map jobKey B).
Proof.
  unfold existsInJobs. rewrite existsb_exists, in_map_iff. split.
  - intros (j & Hj & E). apply String.eqb_eq in E. now exists j.
  - intros (j & E & Hj). exists j. split; [assumption | now apply String.eqb_eq].
Qed.

Lemma In_newJobs (B : list JobDto.t) (L : JsMap.t JobDto.t) filters dateRange x :
  In x (newJobs B L filters dateRange)
  <-> exists k, In (k, x) L /\ ~ In k (map jobKey B)
                /\ matchesFilter x filters dateRange = true.
Proof.
  unfold newJobs. rewrite in_map_iff. split.
  - intros ([k v] & <- & H). apply filter_In in H. destruct H as [H1 H2].
    apply andb_true_iff in H2. destruct H2 as [H2 H3]. apply negb_true_iff in H2.
    exists k. simpl. repeat split; try assumption.
    rewrite <- existsInJobs_true. congruence.
  - intros (k & H1 & H2 & H3). exists (k, x). split; [reflexivity |].
    apply filter_In. split; [assumption |]. rewrite H3, andb_true_r.
    apply negb_true_iff. rewrite <- existsInJobs_true in H2.
    now destruct (existsInJobs B k).
Qed.

Lemma In_existingJobs (B : list JobDto.t) (L : JsMap.t JobDto.t) x :
  In x (existingJobs B L) <-> exists j, In j B /\ x = mergeLive L j.
Proof.
  unfold existingJobs. rewrite in_map_iff. split; intros (j & H1 & H2); exists j; auto.
Qed.

Lemma spread_val_wins (base live : JsVal) : wins_val base live (spread_val base live).
Proof. unfold wins_val. destruct live; simpl; split; congruence. Qed.

Lemma spread_str_wins (base live : option string) :
  wins_str base live (spread_str base live).
Proof. unfold wins_str. destruct live; simpl; split; congruence. Qed.

Lemma wins_val_unique (base live r : JsVal) :
  wins_val base live r -> r = spread_val base live.
Proof.
  intros [H1 H2]. destruct live; simpl; try (apply H1; discriminate). now apply H2.
Qed.

Lemma wins_str_unique (base live r : option string) :
  wins_str base live r -> r = spread_str base live.
Proof.
  intros [H1 H2]. destruct live; simpl; [apply H1; discriminate | now apply H2].
Qed.

(** The spread of the code is the overlay of the specification. *)
Lemma overlaid_mergeLive (L : JsMap.t JobDto.t) (j m : JobDto.t) :
  overlaid L j m <-> m = mergeLive L j.
Proof.
  unfold overlaid, mergeLive, jobKey.
  destruct (JsMap.get (toKey (JobDto.id j)) L) as [live|]; [|tauto].
  split.
  - unfold live_fields_win. intros H. destruct m. simpl in H.
    repeat match type of H with
           | _ /\ _ => let H1 := fresh in destruct H as [H1 H]
           end.
    repeat match goal with
           | H : wins_val _ _ _ |- _ => apply wins_val_unique in H
           | H : wins_str _ _ _ |- _ => apply wins_str_unique in H
           end.
    unfold JobDto.spread. congruence.
  - intros ->. unfold live_fields_win, JobDto.spread; simpl.
    repeat split; try apply spread_val_wins; apply spread_str_wins.
Qed.

Lemma jobKey_mergeLive (L : JsMap.t JobDto.t) (j : JobDto.t) :
  keyed_by_id L -> jobKey (mergeLive L j) = jobKey j.
Proof.
  intros HL. unfold mergeLive.
  destruct (JsMap.get (toKey (JobDto.id j)) L) as [live|] eqn:E; [|reflexivity].
  apply get_Some_In, HL in E. unfold jobKey. simpl.
  destruct (JobDto.id live); simpl in *; congruence.
Qed.


(** *** The displayed list against the reference merge *)

Section Merge.
Variables (B : list JobDto.t) (L : JsMap.t JobDto.t).
Variables (filters : JobFilter.t) (dateRange : DateRange.t).
Hypothesis L_ok : JsMap.ok L.
Hypothesis L_keyed : keyed_by_id L.

Let allJobs : list JobDto.t :=
  (newJobs B L filters dateRange ++ existingJobs B L)%list.
Let out : list JobDto.t := displayJobs Date_getTime B L filters dateRange.

Lemma out_In (x : JobDto.t) :
  In x out <-> In x (JsMap.values (uniqueJobs allJobs)).
Proof. apply sort_In. Qed.

Lemma out_from_union (x : JobDto.t) : In x out -> In x allJobs.
Proof.
  intros H. apply out_In in H. now apply (uniqueJobs_values allJobs).
Qed.

Lemma out_covers_union (a : JobDto.t) :
  In a allJobs -> exists v, In v out /\ jobKey v = jobKey a.
Proof.
  intros H. destruct (uniqueJobs_values allJobs) as (_ & Hc & _).
  destruct (Hc a H) as (v & Hv & E). exists v. split; [now apply out_In | exact E].
Qed.

Lemma union_cases (x : JobDto.t) :
  In x allJobs ->
  (exists k, JsMap.get k L = Some x /\ jobKey x = k /\ ~ In k (map jobKey B)
             /\ matchesFilter x filters dateRange = true)
  \/ (exists j, In j B /\ x = mergeLive L j /\ jobKey x = jobKey j).
Proof.
  intros H. apply in_app_or in H. destruct H as [H|H].
  - left. apply In_newJobs in H. destruct H as (k & H1 & H2 & H3).
    exists k. repeat split; try assumption; [now apply In_get_Some | now apply L_keyed].
  - right. apply In_existingJobs in H. destruct H as (j & H1 & ->).
    exists j. repeat split; try assumption. now apply jobKey_mergeLive.
Qed.

Lemma out_base (j : JobDto.t) :
  In j B ->
  exists j' m, In j' B /\ jobKey j' = jobKey j /\ In m out /\ overlaid L j' m.
Proof.
  intros Hj.
  destruct (out_covers_union (mergeLive L j)) as (v & Hv & E).
  { apply in_or_app. right. apply In_existingJobs. now exists j. }
  rewrite jobKey_mergeLive in E by assumption.
  destruct (union_cases v (out_from_union v Hv))
    as [(k & _ & Ek & Hk & _)|(j' & Hj' & -> & Ej')].
  - exfalso. apply Hk. rewrite <- Ek, E. now apply in_map.
  - exists j', (mergeLive L j'). repeat split; try assumption; [congruence |].
    now apply overlaid_mergeLive.
Qed.

Lemma out_live_only (k : string) (l : JobDto.t) :
  live_only B L k l ->
  (In l out <-> matchesFilter l filters dateRange = true).
Proof.
  intros [Hget Hk]. assert (Ek : jobKey l = k) by now apply L_keyed, get_Some_In.
  split.
  - intros H. destruct (union_cases l (out_from_union l H))
      as [(k' & _ & _ & _ & Hm)|(j & Hj & _ & Ej)]; [exact Hm |].
    exfalso. apply Hk. rewrite <- Ek, Ej. now apply in_map.
  - intros Hm. destruct (out_covers_union l) as (v & Hv & E).
    { apply in_or_app. left. apply In_newJobs. exists k.
      repeat split; try assumption. now apply get_Some_In. }
    destruct (union_cases v (out_from_union v Hv))
      as [(k' & Hget' & Ek' & _ & _)|(j & Hj & _ & Ej)].
    + assert (k' = k) by congruence. subst k'.
      assert (v = l) by congruence. now subst v.
    + exfalso. apply Hk. rewrite <- Ek, <- E, Ej. now apply in_map.
Qed.





End Merge.

(** With one base job per key the reference merge fixes the displayed
    jobs: two lists that meet it hold the same jobs. *)
Lemma reference_merge_In (B : list JobDto.t) (L : JsMap.t JobDto.t)
    (filters : JobFilter.t) (dateRange : DateRange.t) (out1 out2 : list JobDto.t) :
  (forall j j', In j B -> In j' B -> jobKey j = jobKey j' -> j' = j) ->
  reference_merge Date_getTime B L filters dateRange out1 ->
  reference_merge Date_getTime B L filters dateRange out2 ->
  forall x, In x out1 -> In x out2.
Proof.
  intros HB R1 R2 x Hx.
  destruct (rm_only _ _ _ _ _ _ R1 x Hx) as [(j & Hj & Ho)|(k & Hk & Hm)].
  - destruct (rm_base_single _ _ _ _ _ _ R2 j Hj) as (m & Hm & Ho').
    + intros j' Hj' E. now apply HB.
    + apply overlaid_mergeLive in Ho, Ho'. congruence.
  - now apply (rm_live_only _ _ _ _ _ _ R2 k x Hk).
Qed.

Lemma reference_merge_unique (B : list JobDto.t) (L : JsMap.t JobDto.t)
    (filters : JobFilter.t) (dateRange : DateRange.t) (out1 out2 : list JobDto.t) :
  (forall j j', In j B -> In j' B -> jobKey j = jobKey j' -> j' = j) ->
  reference_merge Date_getTime B L filters dateRange out1 ->
  reference_merge Date_getTime B L filters dateRange out2 ->
  Permutation out1 out2.
Proof.
  intros HB R1 R2. apply NoDup_Permutation.
  - apply (NoDup_map_inv jobKey), (rm_unique _ _ _ _ _ _ R1).
  - apply (NoDup_map_inv jobKey), (rm_unique _ _ _ _ _ _ R2).
  - intros x. split; eapply reference_merge_In; eassumption.
Qed.


End DisplayFacts.

Section EmptyFilter.
Import Js InfiniteJobList.

(** C9. With no filter and no date range set, [matchesFilter] lets every
    job through; the displayed list then has every base job (with its live
    entry overlaid) and every job that is only in the live map. *)
Theorem empty_filter_shows_every_job :
  (forall job, matchesFilter job JobFilter.none DateRange.none = true)
  /\ (forall Date_getTime B L, JsMap.ok L -> keyed_by_id L ->
        (forall j, In j B ->
           exists j' m, In j' B /\ jobKey j' = jobKey j
             /\ In m (displayJobs Date_getTime B L JobFilter.none DateRange.none)
             /\ overlaid L j' m)
        /\ (forall k l, live_only B L k l ->
              In l (displayJobs Date_getTime B L JobFilter.none DateRange.none))).
Proof.
  split; [apply matchesFilter_none |].
  intros Date_getTime B L Hok Hkeyed. split.
  - intros j Hj. now apply out_base.
  - intros k l Hl.
    apply (out_live_only Date_getTime B L JobFilter.none DateRange.none Hok Hkeyed k l Hl).
    apply matchesFilter_none.
Qed.

End EmptyFilter.

(** ** The SSE monitor *)

Section MonitorFacts.
Import Js JobMonitor.

Variable reconnectDelay : nat.
Variable JSON_parse : string -> option Parsed.
Variable onMessage_throws : JobDto.t -> bool.

Lemma keep_alive_test (job : JobDto.t) :
  negb (str_truthy (JobDto.taskId job))
  || negb (strict_eq (JobDto.taskId job) (Some "KEEP_ALIVE")) = true
  <-> absent_or_empty (JobDto.taskId job) \/ JobDto.taskId job <> Some "KEEP_ALIVE".
Proof.
  rewrite orb_true_iff, !negb_true_iff, str_truthy_false.
  unfold absent_or_empty, strict_eq.
  destruct (JobDto.taskId job) as [s|].
  - destruct (String.eqb_spec s "KEEP_ALIVE") as [->|N].
    + split; intros [[H|H]|H]; try discriminate; congruence.
    + split; intros _; right; congruence.
  - split; intros _; [left | right]; auto.
Qed.

(** C5. The callback is invoked with a job exactly when the message parses
    to that job as a JSON object, its [id] is truthy, and its [taskId] is
    absent, empty or different from ['KEEP_ALIVE']; it is invoked at most
    once, and the handler never throws. *)
Theorem onmessage_invokes_iff_job_update (data : string) :
  (forall job, In job (fst (onmessage JSON_parse onMessage_throws data))
               <-> JSON_parse data = Some (PObject job) /\ is_job_update job)
  /\ length (fst (onmessage JSON_parse onMessage_throws data)) <= 1
  /\ snd (onmessage JSON_parse onMessage_throws data) = Normal tt.
Proof.
  unfold onmessage, onmessage_try, is_job_update.
  destruct (JSON_parse data) as [[| |j]|]; simpl.
  - split; [|auto]. intros job. split; [intros [] | intros [[=] _]].
  - split; [|auto]. intros job. split; [intros [] | intros [[=] _]].
  - pose proof (keep_alive_test j) as K.
    destruct (truthy (JobDto.id j)) eqn:Et; simpl.
    + destruct (negb (str_truthy (JobDto.taskId j)) || _) eqn:E; simpl.
      * assert (Hin : forall job, In job [j] <->
                  Some (PObject j) = Some (PObject job)
                  /\ truthy (JobDto.id job) = true /\
                  (absent_or_empty (JobDto.taskId job)
                   \/ JobDto.taskId job <> Some "KEEP_ALIVE")).
        { intros job. split.
          - intros [<-|[]]. split; [reflexivity | split; [exact Et | now apply K]].
          - intros ([= <-] & _). now left. }
        destruct (onMessage_throws j); simpl;
          (split; [intros job; specialize (Hin job); simpl in Hin; exact Hin | auto]).
      * split; [|auto]. intros job. split; [intros [] |].
        intros ([= <-] & _ & H). apply K in H. discriminate.
    + split; [|auto]. intros job. split; [intros [] |].
      intros ([= <-] & H & _). congruence.
  - split; [|auto]. intros job. split; [intros [] | intros [[=] _]].
Qed.

End MonitorFacts.

Section ReconnectFacts.
Import Js JobMonitor.

Variable reconnectDelay : nat.
Variable JSON_parse : string -> option Parsed.
Variable onMessage_throws : JobDto.t -> bool.

Let step := JobMonitor.step reconnectDelay JSON_parse onMessage_throws.
Let run := JobMonitor.run reconnectDelay JSON_parse onMessage_throws.

Lemma reconnectsScheduled_app (m : t) (p : list nat) (n : nat) (tr tr' : list Effect) :
  reconnectsScheduled (mkWorld m p n (tr ++ tr'))
  = reconnectsScheduled (mkWorld m p n tr) + length (filter isSetTimeout tr').
Proof. unfold reconnectsScheduled. simpl. now rewrite filter_app, length_app. Qed.

(** A stream error closes the source, resets the attempt counter and, with
    the counter back at zero, always schedules one more reconnect after
    [reconnectDelay]. *)
Lemma onerror_always_schedules (w : World) :
  eventSource (monitor w) <> None ->
  let w' := onerror reconnectDelay w in
  eventSource (monitor w') = None
  /\ reconnectAttempts (monitor w') = 1
  /\ pendingTimers w'
     = (match reconnectTimer (monitor w) with
        | Some id => filter (fun i => negb (Nat.eqb i id)) (pendingTimers w)
        | None => pendingTimers w
        end ++ [nextTimerId w])%list
  /\ reconnectsScheduled w' = S (reconnectsScheduled w)
  /\ gaveUp w' = gaveUp w
  /\ In (SetTimeout (nextTimerId w) reconnectDelay) (trace w')
  /\ In CloseEventSource (trace w').
Proof.
  destruct w as [[es rt att ic] pend next tr]. simpl. intros Hes.
  destruct es as [rs|]; [|contradiction].
  unfold onerror, disconnect, clearReconnectTimer, closeEventSource,
    scheduleReconnect, emit, with_monitor, reconnectsScheduled, gaveUp; simpl.
  destruct rt as [id|]; simpl;
    rewrite ?filter_app, ?length_app, ?existsb_app; simpl;
    rewrite ?Nat.add_0_r, ?orb_false_r; repeat split;
    try lia; rewrite !in_app_iff; simpl; tauto.
Qed.

(** The timer firing with no source held creates a new one; nothing is
    scheduled and nothing given up. *)
Lemma timer_connects (w : World) (id : nat) (rest : list nat) :
  eventSource (monitor w) = None -> pendingTimers w = id :: rest ->
  let w' := step w (EvTimer false) in
  eventSource (monitor w') = Some CONNECTING
  /\ reconnectAttempts (monitor w') = reconnectAttempts (monitor w)
  /\ pendingTimers w' = rest
  /\ reconnectsScheduled w' = reconnectsScheduled w
  /\ gaveUp w' = gaveUp w.
Proof.
  destruct w as [[es rt att ic] pend next tr]. simpl. intros -> ->.
  unfold connect, emit, with_monitor, reconnectsScheduled, gaveUp; simpl.
  rewrite filter_app, length_app, existsb_app. simpl.
  rewrite Nat.add_0_r, orb_false_r. repeat split.
Qed.

(** One failure after another: each round ends as it began, with a fresh
    source connecting and one more reconnect on the count. *)
Lemma failure_round (w : World) :
  eventSource (monitor w) <> None -> pendingTimers w = [] ->
  let w' := run w [EvError; EvTimer false] in
  eventSource (monitor w') = Some CONNECTING
  /\ pendingTimers w' = []
  /\ reconnectAttempts (monitor w') = 1
  /\ reconnectsScheduled w' = S (reconnectsScheduled w)
  /\ gaveUp w' = gaveUp w.
Proof.
  intros Hes Hp.
  assert (E : step w EvError = onerror reconnectDelay w).
  { unfold step. simpl. destruct (eventSource (monitor w)); [reflexivity | contradiction]. }
  destruct (onerror_always_schedules w Hes) as (H1 & H2 & H3 & H4 & H5 & _).
  change (run w [EvError; EvTimer false]) with (step (step w EvError) (EvTimer false)).
  rewrite E. cbv zeta.
  assert (Hp' : pendingTimers (onerror reconnectDelay w) = [nextTimerId w]).
  { rewrite H3, Hp. now destruct (reconnectTimer (monitor w)). }
  destruct (timer_connects (onerror reconnectDelay w) _ _ H1 Hp')
    as (K1 & K2 & K3 & K4 & K5).
  repeat split; congruence.
Qed.

Lemma failures_run (n : nat) (w : World) :
  eventSource (monitor w) <> None -> pendingTimers w = [] ->
  let w' := run w (failures n) in
  eventSource (monitor w') <> None
  /\ reconnectsScheduled w' = n + reconnectsScheduled w
  /\ gaveUp w' = gaveUp w
  /\ reconnectAttempts (monitor w') <= Nat.max 1 (reconnectAttempts (monitor w)).
Proof.
  revert w. induction n as [|n IH]; intros w Hes Hp.
  - cbv zeta. change (run w (failures 0)) with w.
    repeat split; try assumption; lia.
  - destruct (failure_round w Hes Hp) as (H1 & H2 & H3 & H4 & H5).
    change (run w (failures (S n)))
      with (run (run w [EvError; EvTimer false]) (failures n)).
    destruct (IH (run w [EvError; EvTimer false])) as (K1 & K2 & K3 & K4);
      [congruence | assumption |].
    cbv zeta. repeat split; [assumption | lia | congruence | lia].
Qed.

(** C4 (the code departs from it). However many stream errors follow one
    another, the monitor schedules a reconnect after each and never gives
    up: the attempt counter is reset by [disconnect] before
    [scheduleReconnect] tests it, so it never passes 1. After four
    consecutive failures four reconnects have been scheduled, one more
    than [maxReconnectAttempts]. *)
Theorem consecutive_errors_never_give_up :
  (forall n : nat,
     let w := run (new reconnectDelay false) (failures n) in
     reconnectsScheduled w = n
     /\ gaveUp w = false
     /\ reconnectAttempts (monitor w) <= 1)
  /\ maxReconnectAttempts
     < reconnectsScheduled (run (new reconnectDelay false) (failures 4)).
Proof.
  assert (H : forall n : nat,
     let w := run (new reconnectDelay false) (failures n) in
     reconnectsScheduled w = n /\ gaveUp w = false
     /\ reconnectAttempts (monitor w) <= 1).
  { intros n. destruct (failures_run n (new reconnectDelay false))
      as (_ & H2 & H3 & H4); [discriminate | reflexivity |].
    simpl. repeat split.
    - rewrite H2. unfold reconnectsScheduled. simpl. lia.
    - rewrite H3. reflexivity.
    - exact H4. }
  split; [exact H |].
  destruct (H 4) as (E & _). rewrite E. unfold maxReconnectAttempts. lia.
Qed.

(** The path the constructor of a source takes when it throws keeps the
    count: three reconnects are scheduled, the fourth attempt gives up. *)
Lemma throwing_constructor_gives_up :
  let w := run (new reconnectDelay true) (repeat (EvTimer true) 5) in
  reconnectsScheduled w = 3 /\ gaveUp w = true.
Proof. split; reflexivity. Qed.

(** A manual [reconnect] leaves the attempt counter at zero. *)
Lemma reconnect_resets_attempts (w : World) :
  reconnectAttempts (monitor (reconnect reconnectDelay false w)) = 0.
Proof.
  destruct w as [[es rt att ic] pend next tr].
  unfold reconnect, disconnect, clearReconnectTimer, closeEventSource, connect,
    emit, with_monitor; simpl.
  destruct rt, es; reflexivity.
Qed.

End ReconnectFacts.

(** ** The pager *)

Section PagerFacts.
Import UseInfiniteScroll.
Context {T : Type}.
Variable fetcher : nat -> nat -> Settled T.
Variable pageSize : nat.


End PagerFacts.

(** ** The HTTP client *)

Section ClientFacts.
Import ApiClient.

Variable Json : Type.
Variable asApiError : Json -> ApiError.t.
Variable now : string.


(** A rejected [fetch] is rejected with an [ApiClientError] of status 0. *)
Lemma request_fetch_failure (endpoint : string) (e : Thrown) :
  isApiClientError e = false ->
  request asApiError now endpoint (Rejected e)
  = Rejected (ApiClientError (networkError now endpoint e))
  /\ ApiError.status (networkError now endpoint e) = 0%Z.
Proof. destruct e; simpl; intros H; try discriminate; split; reflexivity. Qed.

(** C7 (the code departs from it). A 200 response that announces JSON and
    whose body then fails to parse makes [request] reject with the parser's
    own [SyntaxError]: the promise of [response.json()] is returned without
    being awaited, so the [catch] clause that wraps every other failure in
    an [ApiClientError] never sees the rejection. *)
Theorem request_unawaited_json_rejection_escapes (endpoint : string) :
  let parseFailure := OtherError "SyntaxError" "Unexpected end of JSON input" in
  let response : Response Json :=
    mkResponse 200 "OK" (Some "application/json") (Rejected parseFailure) in
  ok response = true
  /\ request asApiError now endpoint (Fulfilled response) = Rejected parseFailure
  /\ isApiClientError parseFailure = false.
Proof. repeat split. Qed.

End ClientFacts.

(** ** Worked examples *)

Section Worked.
Import Js InfiniteJobList Sample.




(** The sample lists as displayed with no filter set. *)
Example sample_display :
  map (fun j => (jobKey j, JobDto.jobStatus j))
      (displayJobs digitsTime base live JobFilter.none DateRange.none)
  = [("3", Some "PENDING"); ("2", Some "RUNNING"); ("1", Some "RUNNING");
     ("4", Some "PENDING")].
Proof. reflexivity. Qed.


(** A stale update is dropped, a fresh one replaces the entry whole. *)
Example stale_update_dropped :
  onSseUpdate live (job (JNumber 3) "vsearch" None (Some "2025-09-12T08:59:59") "ERROR")
  = live.
Proof. reflexivity. Qed.

Example fresh_update_replaces :
  JsMap.get "3"
    (onSseUpdate live
       (job (JNumber 3) "vsearch" None (Some "2025-09-12T09:30:00") "SUCCESS"))
  = Some (job (JNumber 3) "vsearch" None (Some "2025-09-12T09:30:00") "SUCCESS").
Proof. reflexivity. Qed.

Lemma onSseUpdate_other_keys_unchanged_witness :
  "4" <> toKey (JNumber 3)
  /\ JsMap.get "4"
       (onSseUpdate live
          (job (JNumber 3) "vsearch" None (Some "2025-09-12T09:30:00") "SUCCESS"))
     = JsMap.get "4" live.
Proof.
  split; [discriminate |].
  apply (onSseUpdate_other_keys_unchanged live
           (job (JNumber 3) "vsearch" None (Some "2025-09-12T09:30:00") "SUCCESS") "4").
  discriminate.
Defined.

Lemma missing_createdAt_is_asymmetric_witness :
  matchesFilter (job (JString "4") "mafft" None None "PENDING")
                onlyMafft fromSeptember11 = false
  /\ matchesFilter (job (JString "4") "mafft" None None "PENDING")
                   onlyMafft untilSeptember11 = true.
Proof.
  split.
  - apply (proj1 (proj2 (missing_createdAt_is_asymmetric
             (job (JString "4") "mafft" None None "PENDING") onlyMafft fromSeptember11
             (or_introl eq_refl))) "2025-09-11").
    split; [reflexivity | discriminate].
  - apply (proj2 (proj2 (missing_createdAt_is_asymmetric
             (job (JString "4") "mafft" None None "PENDING") onlyMafft untilSeptember11
             (or_introl eq_refl)))).
    + intros d [H _]. discriminate.
    + exists "2025-09-11". split; [reflexivity | discriminate].
    + unfold filter_conjunction. repeat split; intros x [H _]; simpl in H;
        try discriminate; inversion H; reflexivity.
Defined.

End Worked.

Section WorkedPager.
Import UseInfiniteScroll Sample.


End WorkedPager.

Section WorkedMonitor.
Import Js JobMonitor Sample.

(** Two failures in a row, with a delay of 5000 ms: every error is followed
    by a new timer, and the second round clears the timer of the first,
    which has fired already. *)
Example two_failures_trace :
  trace (run 5000 parse (fun _ => false) (new 5000 false) (failures 2))
  = [NewEventSource;
     CallOnError; CloseEventSource; SetTimeout 1 5000; NewEventSource;
     CallOnError; ClearTimeout 1; CloseEventSource; SetTimeout 2 5000;
     NewEventSource].
Proof. reflexivity. Qed.

(** Where the constructor of the source throws, the counter is kept. *)
Example throwing_constructor_trace :
  trace (run 5000 parse (fun _ => false) (new 5000 true) (repeat (EvTimer true) 5))
  = [SetTimeout 1 5000; SetTimeout 2 5000; SetTimeout 3 5000; LogMaxAttempts].
Proof. reflexivity. Qed.

(** Only the job update reaches the callback, also when the callback itself
    throws. *)
Example messages_handled :
  map (fun data => onmessage parse (fun _ => true) data)
      ["job-3-running"; "keep-alive"; "no-id"; "null"; "42"; "<html>"]
  = [([job (JNumber 3) "vsearch" None None "RUNNING"], Normal tt);
     ([], Normal tt); ([], Normal tt); ([], Normal tt); ([], Normal tt);
     ([], Normal tt)].
Proof. reflexivity. Qed.

End WorkedMonitor.

Section WorkedClient.
Import ApiClient.

Example bad_gateway_wrapped :
  request (fun e : ApiError.t => e) "2025-09-10T10:00:00.000Z" "/jobs"
    (Fulfilled (mkResponse 502 "Bad Gateway" (Some "text/html")
                  (Rejected (OtherError "SyntaxError" "Unexpected token <"))))
  = Rejected (ApiClientError
      (ApiError.mk "2025-09-10T10:00:00.000Z" 502 "Bad Gateway"
                   "HTTP 502: Bad Gateway" "/jobs")).
Proof. reflexivity. Qed.

Example fetch_failure_wrapped :
  request (fun e : ApiError.t => e) "2025-09-10T10:00:00.000Z" "/jobs"
    (Rejected (OtherError "TypeError" "Failed to fetch"))
  = Rejected (ApiClientError
      (ApiError.mk "2025-09-10T10:00:00.000Z" 0 "Network Error"
                   "Failed to fetch" "/jobs")).
Proof. reflexivity. Qed.

End WorkedClient.

(** * Further properties *)

(** ** The live map and the clean-up on a filter change *)

Section LiveMapFacts.
Import Js InfiniteJobList.

(** X1. Whatever SSE updates and filter changes the live map has gone
    through, it holds at most one entry per job identifier, also when one
    update carries the identifier as a number and another as a string: two
    entries whose identifiers print alike are one entry. *)
Theorem live_map_one_entry_per_id (L : JsMap.t JobDto.t) :
  live_reachable L ->
  NoDup (JsMap.keys L)
  /\ forall k1 j1 k2 j2, In (k1, j1) L -> In (k2, j2) L ->
       toKey (JobDto.id j1) = toKey (JobDto.id j2) -> k1 = k2 /\ j1 = j2.
Proof.
  intros H.
  assert (Hinv : JsMap.ok L /\ keyed_by_id L).
  { induction H as [|prev u _ [IH1 IH2]|prev f d _ [IH1 IH2]].
    - split; [apply ok_empty | intros k j []].
    - split; [now apply onSseUpdate_ok | now apply onSseUpdate_keyed].
    - split; [now apply onFilterChange_ok | now apply onFilterChange_keyed]. }
  destruct Hinv as [Hok Hkeyed]. split; [exact Hok |].
  intros k1 j1 k2 j2 H1 H2 E.
  assert (k1 = k2).
  { rewrite <- (Hkeyed k1 j1 H1), <- (Hkeyed k2 j2 H2). exact E. }
  subst k2. split; [reflexivity |].
  apply (In_get_Some L k1 j1 Hok) in H1. apply (In_get_Some L k1 j2 Hok) in H2.
  congruence.
Qed.

Lemma get_filter_absent (L : JsMap.t JobDto.t) (p : string * JobDto.t -> bool)
    (k : string) :
  ~ In k (JsMap.keys L) -> JsMap.get k (filter p L) = None.
Proof.
  intros H. apply get_None_keys. intros Hin. apply H.
  unfold JsMap.keys in *. apply in_map_iff in Hin. destruct Hin as (x & E & Hx).
  apply filter_In in Hx. apply in_map_iff. exists x. tauto.
Qed.

(** X2. After the clean-up that runs on a filter change, the live map
    answers a lookup with the entry it had when that entry passes the new
    filter, and with nothing otherwise. *)
Theorem onFilterChange_lookup (L : JsMap.t JobDto.t) (filters : JobFilter.t)
    (dateRange : DateRange.t) (k : string) :
  JsMap.ok L ->
  JsMap.get k (onFilterChange L filters dateRange)
  = match JsMap.get k L with
    | Some job => if matchesFilter job filters dateRange then Some job else None
    | None => None
    end.
Proof.
  unfold JsMap.ok, onFilterChange.
  induction L as [|[k' v] L IH]; simpl; intros Hok; [reflexivity |].
  inversion Hok as [|? ? Hk HL]; subst.
  destruct (String.eqb_spec k' k) as [->|N].
  - destruct (matchesFilter v filters dateRange); simpl.
    + now rewrite String.eqb_refl.
    + now apply get_filter_absent.
  - destruct (matchesFilter v filters dateRange); simpl.
    + destruct (String.eqb_spec k' k); [contradiction | now apply IH].
    + now apply IH.
Qed.

End LiveMapFacts.

(** ** More on the displayed list *)

Section DisplayMore.
Import Js InfiniteJobList.

Variable Date_getTime : string -> option Z.







Lemma filter_none {A : Type} (p : A -> bool) (l : list A) :
  (forall x, In x l -> p x = false) -> filter p l = [].
Proof.
  induction l as [|x l IH]; simpl; intros H; [reflexivity |].
  rewrite (H x (or_introl eq_refl)). apply IH. intros y Hy. apply H. now right.
Qed.

Lemma newJobs_nil (B : list JobDto.t) (L : JsMap.t JobDto.t) filters dateRange :
  (forall k, In k (JsMap.keys L) -> In k (map jobKey B)) ->
  newJobs B L filters dateRange = [].
Proof.
  intros H. unfold newJobs. rewrite filter_none; [reflexivity |].
  intros [k v] Hin.
  assert (Hk : existsInJobs B k = true).
  { apply existsInJobs_true, H. unfold JsMap.keys.
    change k with (fst (k, v)). now apply in_map. }
  now rewrite Hk.
Qed.

(** X3. The filter never hides a job of the paginated list: when every
    live entry belongs to a job of the base list, the displayed list is
    the same under any two filters. *)
Theorem displayJobs_ignores_filter_on_base (B : list JobDto.t)
    (L : JsMap.t JobDto.t) (f f' : JobFilter.t) (d d' : DateRange.t) :
  (forall k, In k (JsMap.keys L) -> In k (map jobKey B)) ->
  displayJobs Date_getTime B L f d = displayJobs Date_getTime B L f' d'.
Proof.
  intros H. unfold displayJobs. now rewrite !(newJobs_nil B L _ _ H).
Qed.


Lemma set_length {V : Type} (m : JsMap.t V) (k : string) (v : V) :
  length (JsMap.set k v m) <= S (length m).
Proof.
  induction m as [|[k' v'] m IH]; simpl; [lia |].
  destruct (k' =? k); simpl; lia.
Qed.

Lemma fold_addUnique_length (l : list JobDto.t) (m : JsMap.t JobDto.t) :
  length (fold_left addUnique l m) <= length m + length l.
Proof.
  revert m. induction l as [|a l IH]; intros m; simpl; [lia |].
  specialize (IH (addUnique m a)).
  assert (length (addUnique m a) <= S (length m)).
  { unfold addUnique. pose proof (set_length m (toKey (JobDto.id a)) a).
    destruct (JsMap.get _ m); [destruct (_ && _ && _) |]; lia. }
  lia.
Qed.

(** X5. The displayed list never has more rows than there are base jobs
    and live entries together. *)
Theorem displayJobs_length (B : list JobDto.t) (L : JsMap.t JobDto.t)
    (filters : JobFilter.t) (dateRange : DateRange.t) :
  length (displayJobs Date_getTime B L filters dateRange)
  <= length B + length L.
Proof.
  unfold displayJobs. rewrite (Permutation_length (sort_perm _ _)).
  unfold JsMap.values, uniqueJobs. rewrite length_map.
  pose proof (fold_addUnique_length
                (newJobs B L filters dateRange ++ existingJobs B L)%list
                JsMap.empty) as H.
  rewrite length_app in H. unfold existingJobs in *. rewrite length_map in H.
  assert (length (newJobs B L filters dateRange) <= length L).
  { unfold newJobs. rewrite length_map. apply filter_length_le. }
  simpl in H. lia.
Qed.

End DisplayMore.

Section DisplayAfterUpdate.
Import Js InfiniteJobList.

Variable Date_getTime : string -> option Z.

Lemma filter_filter_impl {A : Type} (p q : A -> bool) (l : list A) :
  (forall x, q x = true -> p x = true) -> filter q (filter p l) = filter q l.
Proof.
  intros H. induction l as [|x l IH]; simpl; [reflexivity |].
  destruct (p x) eqn:Ep; simpl.
  - now rewrite IH.
  - destruct (q x) eqn:Eq; [|exact IH].
    rewrite (H x Eq) in Ep. discriminate.
Qed.

(** X6. For jobs that are only in the live map the clean-up is invisible:
    when no live entry belongs to a job of the base list, the list displayed
    under a filter is the same before and after the clean-up for that
    filter. *)
Theorem onFilterChange_keeps_display (B : list JobDto.t) (L : JsMap.t JobDto.t)
    (filters : JobFilter.t) (dateRange : DateRange.t) :
  (forall k, In k (JsMap.keys L) -> ~ In k (map jobKey B)) ->
  displayJobs Date_getTime B (onFilterChange L filters dateRange) filters dateRange
  = displayJobs Date_getTime B L filters dateRange.
Proof.
  intros H. unfold displayJobs.
  assert (E1 : newJobs B (onFilterChange L filters dateRange) filters dateRange
               = newJobs B L filters dateRange).
  { unfold newJobs, onFilterChange. f_equal. apply filter_filter_impl.
    intros [k v] Hq. apply andb_true_iff in Hq. tauto. }
  assert (E2 : existingJobs B (onFilterChange L filters dateRange)
               = existingJobs B L).
  { unfold existingJobs. apply map_ext_in. intros j Hj. unfold mergeLive.
    assert (Hk : ~ In (toKey (JobDto.id j)) (JsMap.keys L)).
    { intros Hin. apply (H _ Hin). now apply (in_map jobKey). }
    unfold onFilterChange. rewrite (get_filter_absent L _ _ Hk).
    apply get_None_keys in Hk. now rewrite Hk. }
  now rewrite E1, E2.
Qed.

(** X7. A fresh SSE update of a listed job shows at once: the displayed
    list holds that job with the fields of the update laid over it. *)
Theorem fresh_update_shows_on_base_job (B : list JobDto.t) (L : JsMap.t JobDto.t)
    (filters : JobFilter.t) (dateRange : DateRange.t) (j u : JobDto.t) :
  JsMap.ok L -> keyed_by_id L ->
  In j B -> (forall j', In j' B -> jobKey j' = jobKey j -> j' = j) ->
  toKey (JobDto.id u) = jobKey j ->
  not_stale L u ->
  In (JobDto.spread j u)
     (displayJobs Date_getTime B (onSseUpdate L u) filters dateRange).
Proof.
  intros Hok Hkeyed Hj Hsingle Ek Hfresh.
  destruct (out_base Date_getTime B (onSseUpdate L u) filters dateRange
              (onSseUpdate_ok L u Hok) (onSseUpdate_keyed L u Hkeyed) j Hj)
    as (j' & m & H1 & H2 & H3 & H4).
  rewrite (Hsingle j' H1 H2) in H4.
  apply overlaid_mergeLive in H4. subst m.
  replace (JobDto.spread j u) with (mergeLive (onSseUpdate L u) j); [exact H3 |].
  unfold mergeLive, onSseUpdate. fold (jobKey j). rewrite <- Ek.
  apply shouldStore_not_stale in Hfresh. rewrite Hfresh.
  now rewrite get_set_same.
Qed.

(** X8. A fresh SSE update of a job that is not in the paginated list adds
    a row for it exactly when the job passes the active filter. *)
Theorem fresh_update_adds_row_iff_matches (B : list JobDto.t)
    (L : JsMap.t JobDto.t) (filters : JobFilter.t) (dateRange : DateRange.t)
    (u : JobDto.t) :
  JsMap.ok L -> keyed_by_id L ->
  ~ In (toKey (JobDto.id u)) (map jobKey B) ->
  not_stale L u ->
  (In u (displayJobs Date_getTime B (onSseUpdate L u) filters dateRange)
   <-> matchesFilter u filters dateRange = true).
Proof.
  intros Hok Hkeyed Hk Hfresh.
  apply (out_live_only Date_getTime B (onSseUpdate L u) filters dateRange
           (onSseUpdate_ok L u Hok) (onSseUpdate_keyed L u Hkeyed)
           (toKey (JobDto.id u)) u).
  split; [|exact Hk].
  unfold onSseUpdate. apply shouldStore_not_stale in Hfresh. rewrite Hfresh.
  apply get_set_same.
Qed.

End DisplayAfterUpdate.

(** ** The filter controls and the query sent to the server *)

Section ControlFacts.
Import Js InfiniteJobList JobListControls.

(** X9. The badge beside the title lists no filter exactly when no filter
    component is set, and then every job passes the filter predicate. *)
Theorem no_badge_no_filter (filters : JobFilter.t) (dateRange : DateRange.t) :
  (activeFilters filters dateRange = [] <-> nothing_set filters dateRange)
  /\ (activeFilters filters dateRange = [] ->
      forall job, matchesFilter job filters dateRange = true).
Proof.
  assert (H : activeFilters filters dateRange = [] <-> nothing_set filters dateRange).
  { unfold activeFilters, nothing_set, filterBoolean, and_label.
    destruct (str_truthy (JobFilter.inputArtifactId filters));
    destruct (str_truthy (JobFilter.tool filters));
    destruct (str_truthy (JobFilter.status filters));
    destruct (str_truthy (DateRange.startDate dateRange));
    destruct (str_truthy (DateRange.endDate dateRange)); simpl;
    split; intros K; try discriminate; try (repeat split; reflexivity);
    destruct K as (K1 & K2 & K3 & K4 & K5); discriminate. }
  split; [exact H |].
  intros E job. apply H in E. destruct E as (K1 & K2 & K3 & K4 & K5).
  now apply matchesFilter_unset.
Qed.




End ControlFacts.

(** ** Error messages of the services *)

Section ServiceFacts.
Import ApiClient ApiClientMethods.

Variable Json : Type.
Variable asApiError : Json -> ApiError.t.
Variable now : string.
Variable URLSearchParams_toString : list (string * string) -> string.

Lemma or_else_nonempty (a b : string) : b <> "" -> or_else a b <> "".
Proof.
  unfold or_else. destruct (String.eqb_spec a ""); [auto | auto].
Qed.

Lemma handleApiError_nonempty (apiError : ApiError.t) :
  handleApiError (ApiClientError apiError) <> "".
Proof.
  unfold handleApiError.
  destruct (ApiError.status apiError =? 400)%Z;
    [apply or_else_nonempty; discriminate |].
  destruct (ApiError.status apiError =? 404)%Z;
    [apply or_else_nonempty; discriminate |].
  destruct (ApiError.status apiError =? 500)%Z;
    [discriminate | apply or_else_nonempty; discriminate].
Qed.

(** X11. For an [ApiClientError] the message shown is never empty: it is
    the message of the error object when that is non-empty and the status
    is not 500, and a fixed text otherwise; with status 500 the message of
    the server is never shown. *)
Theorem handleApiError_message (apiError : ApiError.t) :
  handleApiError (ApiClientError apiError) <> ""
  /\ ((ApiError.status apiError <> 500)%Z -> ApiError.message apiError <> "" ->
      handleApiError (ApiClientError apiError) = ApiError.message apiError)
  /\ ((ApiError.status apiError = 500)%Z ->
      handleApiError (ApiClientError apiError)
      = "서버 오류가 발생했습니다. 잠시 후 다시 시도해주세요.").
Proof.
  split; [apply handleApiError_nonempty | split].
  - intros Hs Hm. unfold handleApiError, or_else.
    destruct (String.eqb_spec (ApiError.message apiError) ""); [contradiction |].
    destruct (ApiError.status apiError =? 400)%Z; [reflexivity |].
    destruct (ApiError.status apiError =? 404)%Z; [reflexivity |].
    destruct (Z.eqb_spec (ApiError.status apiError) 500); [contradiction | reflexivity].
  - intros Hs. unfold handleApiError. rewrite Hs. reflexivity.
Qed.


End ServiceFacts.

(** ** More on the SSE monitor *)

Section MonitorMore.
Import Js JobMonitor JobMonitorRuns.

Variable reconnectDelay : nat.
Variable JSON_parse : string -> option Parsed.
Variable onMessage_throws : JobDto.t -> bool.

Ltac monitor_cases :=
  unfold onerror, onopen, reconnect, disconnect, clearReconnectTimer,
    closeEventSource, connect, scheduleReconnect, emit, with_monitor; simpl.

Lemma scheduleReconnect_timers_ok (w : World) :
  pendingTimers w = [] -> eventSource (monitor w) = None ->
  timers_ok (scheduleReconnect reconnectDelay w).
Proof.
  destruct w as [[es rt att ic] pend next tr]. cbn. intros -> ->.
  unfold scheduleReconnect, timers_ok, emit.
  cbn [monitor reconnectAttempts pendingTimers eventSource reconnectTimer
       nextTimerId trace].
  destruct (maxReconnectAttempts <=? att)%nat;
    cbn [monitor reconnectAttempts pendingTimers eventSource reconnectTimer
         nextTimerId trace app].
  - now left.
  - right. exists next. now repeat split.
Qed.

Lemma connect_timers_ok (b : bool) (w : World) :
  pendingTimers w = [] -> eventSource (monitor w) = None ->
  timers_ok (connect reconnectDelay b w).
Proof.
  intros Hp He. unfold connect. rewrite He. destruct b.
  - apply scheduleReconnect_timers_ok; [exact Hp | reflexivity].
  - left. exact Hp.
Qed.

Lemma disconnect_quiet (w : World) :
  timers_ok w ->
  pendingTimers (disconnect w) = [] /\ eventSource (monitor (disconnect w)) = None.
Proof.
  unfold timers_ok. destruct w as [[es rt att ic] pend next tr]. cbn.
  intros [->|(id & -> & -> & ->)];
    unfold disconnect, clearReconnectTimer, closeEventSource, emit, with_monitor;
    cbn.
  - destruct rt, es; cbn; split; reflexivity.
  - rewrite Nat.eqb_refl. cbn. split; reflexivity.
Qed.

Lemma step_timers_ok (w : World) (ev : Event) :
  timers_ok w ->
  timers_ok (step reconnectDelay JSON_parse onMessage_throws w ev).
Proof.
  intros H. destruct ev as [| data | | b | b |]; cbn [step].
  - destruct (eventSource (monitor w)) eqn:E; [|exact H].
    left. destruct H as [Hp|(id & _ & _ & He)]; [exact Hp | congruence].
  - destruct (eventSource (monitor w)) eqn:E; [|exact H]. exact H.
  - destruct (eventSource (monitor w)) eqn:E; [|exact H].
    unfold onerror.
    match goal with
    | |- timers_ok (scheduleReconnect _ (disconnect ?w2)) =>
        assert (H2 : timers_ok w2) by exact H;
        destruct (disconnect_quiet w2 H2) as [Hp He]
    end.
    now apply scheduleReconnect_timers_ok.
  - destruct (pendingTimers w) as [|id rest] eqn:Ep; [exact H |].
    destruct H as [Hp|(id' & Hp & _ & He)]; [congruence |].
    rewrite Ep in Hp. injection Hp as -> ->.
    now apply connect_timers_ok.
  - unfold reconnect. destruct (disconnect_quiet w H) as [Hp He].
    now apply connect_timers_ok.
  - left. apply (disconnect_quiet w H).
Qed.

Lemma run_timers_ok (w : World) (evs : list Event) :
  timers_ok w ->
  timers_ok (run reconnectDelay JSON_parse onMessage_throws w evs).
Proof.
  revert w. induction evs as [|ev evs IH]; intros w H; simpl; [exact H |].
  apply IH. now apply step_timers_ok.
Qed.

Lemma new_timers_ok (b : bool) : timers_ok (new reconnectDelay b).
Proof.
  destruct b; [right; exists 1; repeat split | left; reflexivity].
Qed.

(** X13. Whatever the browser and the owner do to a monitor, it never has
    two reconnect timers pending, the pending one is the one it would
    clear, and it holds no source while one is pending. *)
Theorem monitor_timers_invariant (ctorThrows : bool) (evs : list Event) :
  timers_ok (run reconnectDelay JSON_parse onMessage_throws
               (new reconnectDelay ctorThrows) evs).
Proof. apply run_timers_ok, new_timers_ok. Qed.


Lemma quiet_step (w : World) (ev : Event) :
  pendingTimers w = [] -> eventSource (monitor w) = None ->
  fromBrowser ev = true ->
  step reconnectDelay JSON_parse onMessage_throws w ev = w.
Proof.
  intros Hp He Hev. destruct ev; try discriminate Hev; simpl;
    rewrite ?He, ?Hp; reflexivity.
Qed.

(** X14. After [disconnect], as the list component calls it on unmount, the
    monitor is silent: no event the browser can still deliver (an open, a
    message, an error, a timer) changes its state, invokes a callback or
    opens a new source. *)
Theorem disconnect_is_final (ctorThrows : bool) (evs later : list Event) :
  forallb fromBrowser later = true ->
  let w := disconnect (run reconnectDelay JSON_parse onMessage_throws
                         (new reconnectDelay ctorThrows) evs) in
  run reconnectDelay JSON_parse onMessage_throws w later = w.
Proof.
  intros Hlater w.
  destruct (disconnect_quiet _ (run_timers_ok _ evs (new_timers_ok ctorThrows)))
    as [Hp He].
  fold w in Hp, He. clearbody w.
  induction later as [|ev later IH]; simpl; [reflexivity |].
  simpl in Hlater. apply andb_true_iff in Hlater. destruct Hlater as [Hev Hl].
  rewrite (quiet_step w ev Hp He Hev). now apply IH.
Qed.

Lemma step_within_budget (w : World) (ev : Event) :
  untroubled ev = true -> within_budget w ->
  within_budget (step reconnectDelay JSON_parse onMessage_throws w ev).
Proof.
  intros Hev (Ht & Hs & Ha).
  split; [now apply step_timers_ok |].
  unfold timers_ok in Ht. revert Hs Ha.
  destruct w as [[es rt att ic] pend next tr].
  unfold reconnectsScheduled, maxReconnectAttempts. simpl in *. intros Hs Ha.
  destruct ev as [| data | | b | b |]; try discriminate Hev; simpl.
  - destruct es; simpl; [|tauto]. monitor_cases.
    rewrite filter_app, length_app. simpl. split; [lia | discriminate].
  - destruct es; simpl; [|tauto].
    rewrite filter_app, length_app.
    replace (length (filter isSetTimeout (map CallOnMessage _))) with 0.
    + rewrite Nat.add_0_r. tauto.
    + symmetry. apply length_zero_iff_nil.
      induction (fst _) as [|x l IH]; [reflexivity | exact IH].
  - destruct Ht as [->|(id & -> & -> & ->)]; [tauto |].
    specialize (Ha eq_refl). monitor_cases. destruct b; simpl.
    + destruct att as [|[|[|att']]]; simpl;
        rewrite filter_app, length_app; simpl; split; try lia; intros _; lia.
    + rewrite filter_app, length_app. simpl. split; [lia | discriminate].
Qed.

Lemma run_within_budget (evs : list Event) (w : World) :
  forallb untroubled evs = true -> within_budget w ->
  within_budget (run reconnectDelay JSON_parse onMessage_throws w evs).
Proof.
  revert w. induction evs as [|ev evs IH]; intros w Hevs H; simpl; [exact H |].
  simpl in Hevs. apply andb_true_iff in Hevs. destruct Hevs as [Hev Hevs].
  apply IH; [exact Hevs | now apply step_within_budget].
Qed.

(** X15. Where no stream error occurs (the constructor of the source
    throwing is the only failure), the bound on reconnects holds: however
    the opens, messages and timers fall, at most [maxReconnectAttempts]
    reconnects are ever scheduled. *)
Theorem reconnects_bounded_without_stream_errors (ctorThrows : bool)
    (evs : list Event) :
  forallb untroubled evs = true ->
  reconnectsScheduled (run reconnectDelay JSON_parse onMessage_throws
                         (new reconnectDelay ctorThrows) evs)
  <= maxReconnectAttempts.
Proof.
  intros Hevs.
  apply (run_within_budget evs (new reconnectDelay ctorThrows) Hevs).
  split; [apply new_timers_ok |].
  destruct ctorThrows; unfold reconnectsScheduled, maxReconnectAttempts; simpl;
    split; try lia; intros; try reflexivity; discriminate.
Qed.

End MonitorMore.

(** ** More on the pager *)

Section PagerMore.
Import UseInfiniteScroll UseInfiniteScrollRuns.
Context {T : Type}.
Variable fetcher : nat -> nat -> Settled T.
Variable pageSize : nat.
Variable initialPage : nat.





(** X18. A response that arrives after [reset] is not dropped: a fetch of
    page [p] that is pending when [reset] runs still lands afterwards, so
    the emptied list then holds the content of that page and the page
    counter stands at [initialPage + 1]. *)
Theorem response_after_reset_lands (s : State) (response : PagedResponse.t T) :
  let pending := loadMore_begin s in
  let s' := loadMore_settle (Resolved response) (reset initialPage pending) in
  items s' = PagedResponse.content response
  /\ page s' = initialPage + 1
  /\ hasMore s' = negb (PagedResponse.last response)
  /\ isLoadingRef (reset initialPage pending) = false.
Proof. repeat split. Qed.

End PagerMore.

(** ** The date range picker *)

Section PickerFacts.
Import Js DateRangePicker.

Lemma le_lex (a b : string) : le a b = true <-> lex_le a b.
Proof. unfold le. rewrite negb_true_iff. apply ltb_false_lex. Qed.

Lemma ltb_asym (a b : string) : String.ltb a b = true -> String.ltb b a = false.
Proof.
  unfold String.ltb. rewrite (String.compare_antisym b a).
  destruct (String.compare a b); simpl; congruence.
Qed.

Lemma ltb_total (a b : string) :
  String.ltb a b = false -> String.ltb b a = false -> a = b.
Proof.
  unfold String.ltb. rewrite (String.compare_antisym b a).
  destruct (String.compare a b) eqn:E; simpl; try discriminate.
  intros _ _. now apply String.compare_eq_iff.
Qed.

Lemma nonempty_truthy (a : string) : a <> "" -> str_truthy (Some a) = true.
Proof. intros H. simpl. now destruct (String.eqb_spec a ""). Qed.

(** The range two clicks hand to [onChange], the first on [a] and the
    second on [b], from a picker that awaits a start date. *)
Lemma second_click (a b : string) (s : State) :
  selectionStep s = start -> a <> "" ->
  handleDateClick b (fst (handleDateClick a s))
  = let r := if String.ltb b a then DateRange.mk (Some b) (Some a)
             else DateRange.mk (Some a) (Some b) in
    (mkState false r start, Some r).
Proof.
  intros Hs Ha. unfold handleDateClick at 2. rewrite Hs. simpl.
  unfold handleDateClick. simpl.
  destruct (String.eqb_spec a ""); [contradiction |]. simpl.
  unfold lt. now destruct (String.ltb b a).
Qed.

(** X19. Two clicks select a range whatever their order: clicking [a] then
    [b] hands [onChange] the same range as clicking [b] then [a], with the
    earlier string as start date and the later as end date, and closes the
    picker ready for a new start date. *)
Theorem two_clicks_select_ordered_range (a b : string) (s : State) :
  selectionStep s = start -> a <> "" -> b <> "" ->
  let after := handleDateClick b (fst (handleDateClick a s)) in
  snd (handleDateClick a s) = None
  /\ snd after = snd (handleDateClick a (fst (handleDateClick b s)))
  /\ (exists r, snd after = Some r /\ ordered_range r
        /\ tempRange (fst after) = r
        /\ ((DateRange.startDate r = Some a /\ DateRange.endDate r = Some b)
            \/ (DateRange.startDate r = Some b /\ DateRange.endDate r = Some a)))
  /\ isOpen (fst after) = false
  /\ selectionStep (fst after) = start.
Proof.
  intros Hs Ha Hb. cbv zeta.
  rewrite (second_click a b s Hs Ha), (second_click b a s Hs Hb). cbv zeta.
  split; [unfold handleDateClick; now rewrite Hs |].
  split.
  - simpl. destruct (String.ltb b a) eqn:E1; destruct (String.ltb a b) eqn:E2;
      try reflexivity.
    + apply ltb_asym in E1. congruence.
    + now rewrite (ltb_total a b E2 E1).
  - split; [|split; reflexivity].
    exists (if String.ltb b a then DateRange.mk (Some b) (Some a)
            else DateRange.mk (Some a) (Some b)).
    split; [reflexivity |]. simpl.
    destruct (String.ltb b a) eqn:E; simpl.
    + split; [|split; [reflexivity | right; now split]].
      exists b, a. repeat split. apply ltb_true_lex in E. apply E.
    + split; [|split; [reflexivity | left; now split]].
      exists a, b. repeat split. now apply ltb_false_lex.
Qed.

(** X20. The range shown while hovering is the range a click would select:
    with a start date chosen and the pointer over [hover], a day is
    highlighted exactly when it lies in the range that clicking on [hover]
    hands to [onChange]. *)
Theorem hover_preview_is_click_result (dateStr a hover : string) (open : bool) :
  a <> "" -> hover <> "" ->
  let s := mkState open (DateRange.mk (Some a) None) finish in
  inRange dateStr (tempRange s) (Some hover) (selectionStep s) = true
  <-> exists r x y, snd (handleDateClick hover s) = Some r
        /\ DateRange.startDate r = Some x /\ DateRange.endDate r = Some y
        /\ lex_le x dateStr /\ lex_le dateStr y.
Proof.
  intros Ha Hh. cbv zeta. unfold inRange, handleDateClick. simpl.
  destruct (String.eqb_spec a ""); [contradiction |].
  destruct (String.eqb_spec hover ""); [contradiction |]. simpl.
  change (le a hover) with (negb (String.ltb hover a)).
  unfold lt. destruct (String.ltb hover a) eqn:E; simpl.
  - rewrite andb_true_iff, ge_lex, le_lex. split.
    + intros [H1 H2]. exists (DateRange.mk (Some hover) (Some a)), hover, a.
      now repeat split.
    + intros (r & x & y & [= <-] & [= <-] & [= <-] & H1 & H2). now split.
  - rewrite andb_true_iff, ge_lex, le_lex. split.
    + intros [H1 H2]. exists (DateRange.mk (Some a) (Some hover)), a, hover.
      now repeat split.
    + intros (r & x & y & [= <-] & [= <-] & [= <-] & H1 & H2). now split.
Qed.

(** X21. The two month buttons undo each other and keep the month between
    0 and 11: from any month of the year, back and forth (or forth and
    back) returns to the month shown, across the turn of the year too. *)
Theorem month_buttons_round_trip (v : Shown) :
  (0 <= currentMonth v <= 11)%Z ->
  nextMonth (previousMonth v) = v
  /\ previousMonth (nextMonth v) = v
  /\ (0 <= currentMonth (previousMonth v) <= 11)%Z
  /\ (0 <= currentMonth (nextMonth v) <= 11)%Z.
Proof.
  destruct v as [y m]. simpl. intros H.
  unfold previousMonth, nextMonth. simpl.
  destruct (Z.eqb_spec m 0) as [E0|N0]; destruct (Z.eqb_spec m 11) as [E11|N11];
    simpl; try lia.
  - subst m. repeat split; try lia. f_equal; lia.
  - subst m. repeat split; try lia. f_equal; lia.
  - destruct (Z.eqb_spec (m - 1) 11); [lia |].
    destruct (Z.eqb_spec (m + 1) 0); [lia |].
    repeat split; try lia; f_equal; lia.
Qed.

End PickerFacts.

(** ** Formatted dates and string order *)

Section DateOrder.
Import Js DateRangePicker.

Lemma lex_le_trans (a b c : string) : lex_le a b -> lex_le b c -> lex_le a c.
Proof.
  intros H. revert c. induction H as [s|c1 c2 s1 s2 Hlt|ch s1 s2 H IH];
    intros c Hbc.
  - constructor.
  - inversion Hbc; subst.
    + apply lex_le_head. lia.
    + now apply lex_le_head.
  - inversion Hbc; subst.
    + now apply lex_le_head.
    + apply lex_le_tail. now apply IH.
Qed.

Lemma compare_refl (a : string) : String.compare a a = Eq.
Proof.
  induction a as [|c a IH]; simpl; [reflexivity |].
  unfold Ascii.compare. now rewrite N.compare_refl.
Qed.

Lemma compare_Lt_lex (a b : string) : String.compare a b = Lt <-> lex_lt a b.
Proof.
  rewrite <- ltb_true_lex. unfold String.ltb.
  destruct (String.compare a b); split; congruence.
Qed.

Lemma compare_Lt_trans (a b c : string) :
  String.compare a b = Lt -> String.compare b c = Lt -> String.compare a c = Lt.
Proof.
  rewrite !compare_Lt_lex. intros [H1 N1] [H2 N2]. split.
  - now apply (lex_le_trans a b c).
  - intros ->. apply N1. now apply lex_le_antisym.
Qed.

Lemma compare_app (a1 a2 r1 r2 : string) :
  String.length a1 = String.length a2 ->
  String.compare (a1 ++ r1) (a2 ++ r2)
  = match String.compare a1 a2 with
    | Eq => String.compare r1 r2
    | c => c
    end.
Proof.
  revert a2. induction a1 as [|c a1 IH]; intros [|d a2]; simpl;
    try discriminate; [reflexivity |].
  intros [= H]. destruct (Ascii.compare c d); [now apply IH | |]; reflexivity.
Qed.

Lemma length_append (a b : string) :
  String.length (a ++ b) = String.length a + String.length b.
Proof. induction a as [|c a IH]; simpl; [reflexivity | now rewrite IH]. Qed.

Lemma In_Zrange (n : nat) (from y : Z) :
  (from <= y < from + Z.of_nat n)%Z -> In y (Zrange from n).
Proof.
  revert from. induction n as [|n IH]; intros from H; [lia |].
  simpl. destruct (Z.eq_dec from y) as [E|N]; [now left | right].
  apply IH. lia.
Qed.

Lemma In_years (y : Z) : (1000 <= y <= 9999)%Z -> In y years.
Proof. intros H. apply In_Zrange. lia. Qed.

Lemma In_days (d : Z) : (1 <= d <= 31)%Z -> In d days.
Proof. intros H. apply In_Zrange. lia. Qed.

Lemma years_checked :
  forallb (fun y => Nat.eqb (String.length (numeral y)) 4
                    && ((y =? 9999)%Z
                        || match String.compare (numeral y) (numeral (y + 1)) with
                           | Lt => true
                           | _ => false
                           end)) years = true.
Proof. vm_compute. reflexivity. Qed.

Lemma year_length (y : Z) :
  (1000 <= y <= 9999)%Z -> String.length (numeral y) = 4.
Proof.
  intros H. pose proof years_checked as K. rewrite forallb_forall in K.
  specialize (K y (In_years y H)). apply andb_true_iff in K.
  now apply Nat.eqb_eq.
Qed.

Lemma year_next (y : Z) :
  (1000 <= y < 9999)%Z -> String.compare (numeral y) (numeral (y + 1)) = Lt.
Proof.
  intros H. pose proof years_checked as K. rewrite forallb_forall in K.
  specialize (K y (In_years y ltac:(lia))). apply andb_true_iff in K.
  destruct K as [_ K]. destruct (Z.eqb_spec y 9999); [lia |]. simpl in K.
  now destruct (String.compare (numeral y) (numeral (y + 1))).
Qed.

Lemma year_lt (k : nat) (y : Z) :
  (1000 <= y)%Z -> (y + 1 + Z.of_nat k <= 9999)%Z ->
  String.compare (numeral y) (numeral (y + 1 + Z.of_nat k)) = Lt.
Proof.
  induction k as [|k IH]; intros H1 H2.
  - replace (y + 1 + Z.of_nat 0)%Z with (y + 1)%Z by lia. apply year_next. lia.
  - apply (compare_Lt_trans _ (numeral (y + 1 + Z.of_nat k))).
    + apply IH; lia.
    + replace (y + 1 + Z.of_nat (S k))%Z with (y + 1 + Z.of_nat k + 1)%Z by lia.
      apply year_next. lia.
Qed.

Lemma year_compare (y1 y2 : Z) :
  (1000 <= y1 <= 9999)%Z -> (1000 <= y2 <= 9999)%Z ->
  String.compare (numeral y1) (numeral y2) = (y1 ?= y2)%Z.
Proof.
  intros H1 H2. destruct (Z.compare_spec y1 y2) as [->|L|G].
  - apply compare_refl.
  - replace y2 with (y1 + 1 + Z.of_nat (Z.to_nat (y2 - y1 - 1)))%Z by lia.
    apply year_lt; lia.
  - rewrite String.compare_antisym.
    replace y1 with (y2 + 1 + Z.of_nat (Z.to_nat (y1 - y2 - 1)))%Z by lia.
    rewrite year_lt by lia. reflexivity.
Qed.

Lemma days_checked :
  forallb (fun a =>
    Nat.eqb (String.length (padStart 2 "0"%char (numeral a))) 2
    && forallb (fun b =>
         match String.compare (padStart 2 "0"%char (numeral a))
                              (padStart 2 "0"%char (numeral b)), (a ?= b)%Z with
         | Eq, Eq | Lt, Lt | Gt, Gt => true
         | _, _ => false
         end) days) days = true.
Proof. vm_compute. reflexivity. Qed.

Lemma two_digits (a b : Z) :
  (1 <= a <= 31)%Z -> (1 <= b <= 31)%Z ->
  String.length (padStart 2 "0"%char (numeral a)) = 2
  /\ String.compare (padStart 2 "0"%char (numeral a))
                    (padStart 2 "0"%char (numeral b)) = (a ?= b)%Z.
Proof.
  intros Ha Hb. pose proof days_checked as K. rewrite forallb_forall in K.
  specialize (K a (In_days a Ha)). apply andb_true_iff in K. destruct K as [K1 K2].
  split; [now apply Nat.eqb_eq |].
  rewrite forallb_forall in K2. specialize (K2 b (In_days b Hb)).
  destruct (String.compare _ _), (a ?= b)%Z; congruence.
Qed.

Lemma format_length (d : LocalDate) :
  four_digit_year d -> String.length (formatDateToLocal d) = 10.
Proof.
  intros (Hy & Hm & Hd). destruct d as [y m d].
  cbn [getFullYear getMonth getDate] in Hy, Hm, Hd.
  destruct (two_digits (m + 1) (m + 1) ltac:(lia) ltac:(lia)) as [Lm _].
  destruct (two_digits d d Hd Hd) as [Ld _].
  unfold formatDateToLocal. cbn [getFullYear getMonth getDate].
  fold (numeral y) (numeral (m + 1)) (numeral d).
  rewrite !length_append, (year_length y Hy), Lm, Ld. reflexivity.
Qed.

Lemma format_compare (d1 d2 : LocalDate) :
  four_digit_year d1 -> four_digit_year d2 ->
  String.compare (formatDateToLocal d1) (formatDateToLocal d2)
  = compareDates d1 d2.
Proof.
  intros (Hy1 & Hm1 & Hd1) (Hy2 & Hm2 & Hd2).
  destruct d1 as [y1 m1 d1], d2 as [y2 m2 d2].
  cbn [getFullYear getMonth getDate] in Hy1, Hm1, Hd1, Hy2, Hm2, Hd2.
  destruct (two_digits (m1 + 1) (m2 + 1) ltac:(lia) ltac:(lia)) as [Lm Cm].
  destruct (two_digits d1 d2 Hd1 Hd2) as [Ld Cd].
  destruct (two_digits (m2 + 1) (m2 + 1) ltac:(lia) ltac:(lia)) as [Lm2 _].
  pose proof (year_length y1 Hy1) as Ly1.
  pose proof (year_length y2 Hy2) as Ly2.
  pose proof (year_compare y1 y2 Hy1 Hy2) as Cy.
  unfold formatDateToLocal, compareDates. cbn [getFullYear getMonth getDate].
  fold (numeral y1) (numeral y2) (numeral (m1 + 1))
    (numeral (m2 + 1)) (numeral d1) (numeral d2).
  rewrite compare_app by congruence. rewrite Cy.
  destruct (y1 ?= y2)%Z; try reflexivity.
  change ("-" ++ ?x) with (String "-"%char x). simpl String.compare.
  change (Ascii.compare "-" "-") with Eq. cbv iota.
  rewrite compare_app by congruence. rewrite Cm.
  replace (m1 + 1 ?= m2 + 1)%Z with (m1 ?= m2)%Z
    by (destruct (Z.compare_spec m1 m2), (Z.compare_spec (m1 + 1) (m2 + 1));
        try reflexivity; lia).
  destruct (m1 ?= m2)%Z; try reflexivity.
  simpl String.compare. change (Ascii.compare "-" "-") with Eq. cbv iota.
  exact Cd.
Qed.

(** X22. For dates of four-digit years, string order on the formatted dates
    is calendar order: [formatDateToLocal] gives ten characters, and
    comparing two formatted dates as strings gives what comparing year,
    then month, then day gives. *)
Theorem formatted_dates_order_as_dates (d1 d2 : LocalDate) :
  four_digit_year d1 -> four_digit_year d2 ->
  String.length (formatDateToLocal d1) = 10
  /\ String.compare (formatDateToLocal d1) (formatDateToLocal d2)
     = compareDates d1 d2
  /\ (lt (formatDateToLocal d1) (formatDateToLocal d2) = true
      <-> compareDates d1 d2 = Lt).
Proof.
  intros H1 H2. split; [now apply format_length |].
  split; [now apply format_compare |].
  unfold lt, String.ltb. rewrite (format_compare d1 d2 H1 H2).
  destruct (compareDates d1 d2); split; congruence.
Qed.

Lemma years_no_T :
  forallb (fun y => split_T_0 (numeral y) =? numeral y) years = true.
Proof. vm_compute. reflexivity. Qed.

Lemma days_no_T :
  forallb (fun a => split_T_0 (padStart 2 "0"%char (numeral a))
                    =? padStart 2 "0"%char (numeral a)) days = true.
Proof. vm_compute. reflexivity. Qed.

Lemma no_T_app (a b : string) :
  split_T_0 a = a -> split_T_0 (a ++ b) = a ++ split_T_0 b.
Proof.
  induction a as [|c a IH]; simpl; [reflexivity |].
  destruct (Ascii.eqb c "T"%char); [discriminate |].
  intros [= H]. now rewrite IH.
Qed.

Lemma format_no_T (d : LocalDate) (rest : string) :
  four_digit_year d ->
  split_T_0 (formatDateToLocal d ++ String "T"%char rest) = formatDateToLocal d.
Proof.
  intros (Hy & Hm & Hd). destruct d as [y m d].
  cbn [getFullYear getMonth getDate] in Hy, Hm, Hd.
  pose proof years_no_T as Ky. rewrite forallb_forall in Ky.
  specialize (Ky y (In_years y Hy)). apply String.eqb_eq in Ky.
  pose proof days_no_T as Kd. rewrite forallb_forall in Kd.
  assert (Hm1 : (1 <= m + 1 <= 31)%Z) by lia.
  pose proof (Kd (m + 1)%Z (In_days _ Hm1)) as Km. apply String.eqb_eq in Km.
  specialize (Kd d (In_days d Hd)). apply String.eqb_eq in Kd.
  unfold formatDateToLocal. cbn [getFullYear getMonth getDate].
  fold (numeral y) (numeral (m + 1)) (numeral d).
  assert (A : forall a b c : string, ((a ++ b) ++ c = a ++ (b ++ c))%string).
  { intros a b c. induction a as [|ch a IH]; simpl; [reflexivity | now rewrite IH]. }
  rewrite !A. rewrite (no_T_app _ _ Ky). f_equal.
  change ("-" ++ ?x) with (String "-"%char x). simpl split_T_0. f_equal.
  rewrite (no_T_app _ _ Km). f_equal. simpl split_T_0. f_equal.
  rewrite (no_T_app _ _ Kd). simpl. f_equal.
  generalize (padStart 2 "0"%char (numeral d)). intros x.
  induction x as [|c x IH]; simpl; [reflexivity | now rewrite IH].
Qed.

Lemma compare_not_Gt_lex (a b : string) : String.compare a b <> Gt <-> lex_le a b.
Proof.
  pose proof (compare_lex a b) as H. destruct (String.compare a b).
  - subst. split; [intros _; apply lex_le_refl | discriminate].
  - split; [intros _; apply H | discriminate].
  - split; [congruence |]. intros K. destruct H as [H N].
    exfalso. apply N. now apply lex_le_antisym.
Qed.

(** X23. The picker and the filter together select by calendar day: after
    clicks on two days, in either order, a job created on day [d] passes
    the date filter of the selected range exactly when [d] is one of the
    two days or lies between them. *)
Theorem picked_range_selects_calendar_days (d1 d2 d : LocalDate)
    (time : string) (job : JobDto.t) (s : State) :
  four_digit_year d1 -> four_digit_year d2 -> four_digit_year d ->
  selectionStep s = start ->
  JobDto.createdAt job = Some (formatDateToLocal d ++ String "T"%char time) ->
  exists r,
    snd (handleDateClick (formatDateToLocal d2)
           (fst (handleDateClick (formatDateToLocal d1) s))) = Some r
    /\ (InfiniteJobList.matchesFilter job JobFilter.none r = true
        <-> on_or_between d1 d2 d \/ on_or_between d2 d1 d).
Proof.
  intros H1 H2 Hd Hs Hc.
  assert (N : forall x, four_digit_year x -> formatDateToLocal x <> "").
  { intros x Hx E. pose proof (format_length x Hx) as L. rewrite E in L.
    discriminate L. }
  assert (Ej : InfiniteJobList.jobDate job = formatDateToLocal d).
  { unfold InfiniteJobList.jobDate. rewrite Hc.
    assert (T : str_truthy (Some (formatDateToLocal d ++ String "T"%char time)) = true).
    { apply nonempty_truthy. intros E. apply (N d Hd).
      destruct (formatDateToLocal d); [reflexivity | discriminate E]. }
    rewrite T. now apply format_no_T. }
  assert (B : forall a b, four_digit_year a -> four_digit_year b ->
              (compareDates a b <> Gt
               <-> lex_le (formatDateToLocal a) (formatDateToLocal b))).
  { intros a b Ha Hb. rewrite <- (format_compare a b Ha Hb).
    apply compare_not_Gt_lex. }
  rewrite (second_click _ _ s Hs (N d1 H1)). cbv zeta. eexists. split; [reflexivity |].
  unfold on_or_between. rewrite !B by assumption.
  rewrite matchesFilter_tests, start_component, end_component, Ej.
  set (f1 := formatDateToLocal d1) in *. set (f2 := formatDateToLocal d2) in *.
  set (fd := formatDateToLocal d) in *.
  assert (N1 : f1 <> "") by now apply N. assert (N2 : f2 <> "") by now apply N.
  destruct (String.ltb f2 f1) eqn:E; cbn [DateRange.startDate DateRange.endDate];
    unfold InfiniteJobList.is_set; simpl; split.
  - intros (_ & _ & _ & K1 & K2). right. split; [apply K1 | apply K2]; now split.
  - apply ltb_true_lex in E. destruct E as [E NE].
    intros [[K1 K2]|[K1 K2]].
    + exfalso. apply NE. apply lex_le_antisym; [exact E |].
      now apply (lex_le_trans f1 fd f2).
    + repeat split; try reflexivity; intros x [[= <-] _]; assumption.
  - intros (_ & _ & _ & K1 & K2). left. split; [apply K1 | apply K2]; now split.
  - apply ltb_false_lex in E.
    intros [[K1 K2]|[K1 K2]].
    + repeat split; try reflexivity; intros x [[= <-] _]; assumption.
    + repeat split; try reflexivity; intros x [[= <-] _].
      * now apply (lex_le_trans f1 f2 fd).
      * now apply (lex_le_trans fd f1 f2).
Qed.

End DateOrder.

(** ** Worked examples of the further properties *)

Section FurtherExamples.
Import Js Sample MoreSamples.

(** Job 3 reported as number 3 and then as string "3" is one entry. *)
Lemma live_map_one_entry_per_id_witness :
  NoDup (JsMap.keys twoUpdates)
  /\ forall k1 j1 k2 j2, In (k1, j1) twoUpdates -> In (k2, j2) twoUpdates ->
       InfiniteJobList.toKey (JobDto.id j1) = InfiniteJobList.toKey (JobDto.id j2) ->
       k1 = k2 /\ j1 = j2.
Proof.
  apply (live_map_one_entry_per_id twoUpdates).
  unfold twoUpdates. do 2 apply InfiniteJobList.live_update.
  apply InfiniteJobList.live_initial.
Defined.

(** The vsearch job 3 is gone from the live map once the filter asks for
    mafft. *)
Lemma onFilterChange_lookup_witness :
  JsMap.get "3" (InfiniteJobList.onFilterChange live onlyMafft DateRange.none) = None.
Proof.
  refine (eq_trans (onFilterChange_lookup live onlyMafft DateRange.none "3" _) _).
  - unfold JsMap.ok. simpl. repeat constructor; simpl; intuition discriminate.
  - reflexivity.
Defined.

Lemma displayJobs_ignores_filter_on_base_witness :
  InfiniteJobList.displayJobs digitsTime base liveOfBase onlyMafft fromSeptember11
  = InfiniteJobList.displayJobs digitsTime base liveOfBase JobFilter.none DateRange.none.
Proof.
  apply (displayJobs_ignores_filter_on_base digitsTime base liveOfBase).
  simpl. intros k [<-|[]]. now left.
Defined.


Lemma onFilterChange_keeps_display_witness :
  InfiniteJobList.displayJobs digitsTime base
    (InfiniteJobList.onFilterChange liveOnly onlyMafft DateRange.none)
    onlyMafft DateRange.none
  = InfiniteJobList.displayJobs digitsTime base liveOnly onlyMafft DateRange.none.
Proof.
  apply (onFilterChange_keeps_display digitsTime base liveOnly).
  simpl. intros k [<-|[<-|[]]] [H|[H|[]]]; discriminate H.
Defined.

Lemma fresh_update_shows_on_base_job_witness :
  In (JobDto.spread job1 job1Done)
     (InfiniteJobList.displayJobs digitsTime base
        (InfiniteJobList.onSseUpdate live job1Done) onlyMafft DateRange.none).
Proof.
  apply (fresh_update_shows_on_base_job digitsTime base live).
  - unfold JsMap.ok. simpl. repeat constructor; simpl; intuition discriminate.
  - intros k j [[= <- <-]|[[= <- <-]|[[= <- <-]|[]]]]; reflexivity.
  - simpl. right. now left.
  - simpl. intros j' [<-|[<-|[]]] E; [discriminate E | reflexivity].
  - reflexivity.
  - left. reflexivity.
Defined.

Lemma fresh_update_adds_row_iff_matches_witness :
  In job5 (InfiniteJobList.displayJobs digitsTime base
             (InfiniteJobList.onSseUpdate live job5) onlyMafft fromSeptember11)
  <-> InfiniteJobList.matchesFilter job5 onlyMafft fromSeptember11 = true.
Proof.
  apply (fresh_update_adds_row_iff_matches digitsTime base live).
  - unfold JsMap.ok. simpl. repeat constructor; simpl; intuition discriminate.
  - intros k j [[= <- <-]|[[= <- <-]|[[= <- <-]|[]]]]; reflexivity.
  - simpl. intros [H|[H|[]]]; discriminate H.
  - left. reflexivity.
Defined.


Lemma disconnect_is_final_witness :
  let w := JobMonitor.disconnect
             (JobMonitor.run 3000 parse (fun _ => false) (JobMonitor.new 3000 false)
                [JobMonitor.EvOpen; JobMonitor.EvError]) in
  JobMonitor.run 3000 parse (fun _ => false) w
    [JobMonitor.EvTimer false; JobMonitor.EvOpen;
     JobMonitor.EvMessage "job-3-running"; JobMonitor.EvError]
  = w.
Proof.
  apply (disconnect_is_final 3000 parse (fun _ => false) false
           [JobMonitor.EvOpen; JobMonitor.EvError]).
  reflexivity.
Defined.

(** The constructor throws at mount and at every timer: three reconnects
    are scheduled and no more. *)
Lemma reconnects_bounded_without_stream_errors_witness :
  JobMonitor.reconnectsScheduled
    (JobMonitor.run 3000 parse (fun _ => false) (JobMonitor.new 3000 true)
       (repeat (JobMonitor.EvTimer true) 5))
  <= JobMonitor.maxReconnectAttempts.
Proof.
  apply (reconnects_bounded_without_stream_errors 3000 parse (fun _ => false) true
           (repeat (JobMonitor.EvTimer true) 5)).
  reflexivity.
Defined.



(** The later day clicked first. *)
Lemma two_clicks_select_ordered_range_witness :
  let after := DateRangePicker.handleDateClick "2025-09-10"
                 (fst (DateRangePicker.handleDateClick "2025-09-12" closedPicker)) in
  snd (DateRangePicker.handleDateClick "2025-09-12" closedPicker) = None
  /\ snd after
     = snd (DateRangePicker.handleDateClick "2025-09-12"
              (fst (DateRangePicker.handleDateClick "2025-09-10" closedPicker)))
  /\ (exists r, snd after = Some r /\ DateRangePicker.ordered_range r
        /\ DateRangePicker.tempRange (fst after) = r
        /\ ((DateRange.startDate r = Some "2025-09-12"
             /\ DateRange.endDate r = Some "2025-09-10")
            \/ (DateRange.startDate r = Some "2025-09-10"
                /\ DateRange.endDate r = Some "2025-09-12")))
  /\ DateRangePicker.isOpen (fst after) = false
  /\ DateRangePicker.selectionStep (fst after) = DateRangePicker.start.
Proof.
  apply (two_clicks_select_ordered_range "2025-09-12" "2025-09-10" closedPicker);
    [reflexivity | discriminate | discriminate].
Defined.

Lemma hover_preview_is_click_result_witness :
  let s := DateRangePicker.mkState true
             (DateRange.mk (Some "2025-09-12") None) DateRangePicker.finish in
  DateRangePicker.inRange "2025-09-11" (DateRangePicker.tempRange s)
    (Some "2025-09-10") (DateRangePicker.selectionStep s) = true
  <-> exists r x y,
        snd (DateRangePicker.handleDateClick "2025-09-10" s) = Some r
        /\ DateRange.startDate r = Some x /\ DateRange.endDate r = Some y
        /\ lex_le x "2025-09-11" /\ lex_le "2025-09-11" y.
Proof.
  apply (hover_preview_is_click_result "2025-09-11" "2025-09-12" "2025-09-10" true);
    discriminate.
Defined.

(** January 2025: back to December 2024 and forth again. *)
Lemma month_buttons_round_trip_witness :
  let v := DateRangePicker.mkShown 2025 0 in
  DateRangePicker.nextMonth (DateRangePicker.previousMonth v) = v
  /\ DateRangePicker.previousMonth (DateRangePicker.nextMonth v) = v
  /\ (0 <= DateRangePicker.currentMonth (DateRangePicker.previousMonth v) <= 11)%Z
  /\ (0 <= DateRangePicker.currentMonth (DateRangePicker.nextMonth v) <= 11)%Z.
Proof.
  apply (month_buttons_round_trip (DateRangePicker.mkShown 2025 0)). simpl. lia.
Defined.

Lemma formatted_dates_order_as_dates_witness :
  String.length (DateRangePicker.formatDateToLocal september9) = 10
  /\ String.compare (DateRangePicker.formatDateToLocal september9)
                    (DateRangePicker.formatDateToLocal november1)
     = DateRangePicker.compareDates september9 november1
  /\ (lt (DateRangePicker.formatDateToLocal september9)
         (DateRangePicker.formatDateToLocal november1) = true
      <-> DateRangePicker.compareDates september9 november1 = Lt).
Proof.
  apply (formatted_dates_order_as_dates september9 november1);
    unfold DateRangePicker.four_digit_year; simpl; lia.
Defined.

(** 1 November clicked first, then 9 September; a job created on
    11 September. *)
Lemma picked_range_selects_calendar_days_witness :
  exists r,
    snd (DateRangePicker.handleDateClick (DateRangePicker.formatDateToLocal september9)
           (fst (DateRangePicker.handleDateClick
                   (DateRangePicker.formatDateToLocal november1) closedPicker)))
    = Some r
    /\ (InfiniteJobList.matchesFilter
          (job (JNumber 6) "mafft"
               (Some (DateRangePicker.formatDateToLocal september11 ++ "T08:00:00"))
               None "PENDING")
          JobFilter.none r = true
        <-> DateRangePicker.on_or_between november1 september9 september11
            \/ DateRangePicker.on_or_between september9 november1 september11).
Proof.
  apply (picked_range_selects_calendar_days november1 september9 september11
           "08:00:00" _ closedPicker);
    try (unfold DateRangePicker.four_digit_year; simpl; lia); reflexivity.
Defined.

End FurtherExamples.
